(** * The model codec of [terra/models/base_model.py]

    A shallow embedding of [TerraDataModel]: attribute enumeration
    ([_get_attrs], [keys], [values], [items]), [to_dict], [from_dict],
    [from_dict_api] and [populate_from_dict], together with the properties
    of the codec that are stated about them.

    Two views of the same code are given.

    - The first part works on Python values as finite trees.  An exception
      is a result [Raise e]; the instance under construction
      ([data_model], [self]) is threaded through the loops as its attribute
      namespace.  This view has no recursion limit.
    - The module [Store] works on a heap of mutable objects named by
      references, for the statements that speak about object identity and
      about what a call leaves untouched; its [to_dict] carries the
      recursion limit.  The last part shows that [to_dict] on the heap
      computes what [to_dict] on trees computes, within that limit.

    What is taken for granted about the model classes, which are not part
    of [base_model.py]:
    - a subclass of [TerraDataModel] adds data attributes only, and the
      keys of an incoming mapping are strings that name no method of the
      base class;
    - [_get_attrs] yields the names of the attributes in the order of a
      Python [set], which is not specified: the order of the namespace
      stands for it, and two instances with the same attribute names list
      them in the same order;
    - a class is known by its name, and building an instance ([cls()]) has
      no effect other than the instance it returns. *)

From Stdlib Require Import ZArith String Ascii List Bool Lia.
From stdpp Require Import base tactics option list strings gmap.

Set Warnings "-register-all".
Open Scope string_scope.
Open Scope list_scope.

(** ** Strings: the part of [str] the codec uses *)

(** [s.split(sep)] for a one-character separator: the pieces between the
    occurrences of [sep], never an empty list. *)
Fixpoint split (sep : ascii) (s : string) : list string :=
  match s with
  | EmptyString => [EmptyString]
  | String c rest =>
      if Ascii.eqb c sep then EmptyString :: split sep rest
      else match split sep rest with
           | [] => [String c EmptyString]
           | piece :: pieces => String c piece :: pieces
           end
  end.

(** [s.split(sep)[0]]. *)
Definition first_piece (sep : ascii) (s : string) : string :=
  match split sep s with
  | [] => EmptyString
  | piece :: _ => piece
  end.

(** [a.startswith("_")]. *)
Definition startswith_underscore (a : string) : bool :=
  match a with
  | String c _ => Ascii.eqb c "_"%char
  | EmptyString => false
  end.

(** ** Python values *)

(** The runtime values an attribute or a mapping entry can hold.  A float
    is carried as its binary64 bit pattern: the codec never computes on it.
    [VEnum cls n] is a member of the [enum.IntEnum] subclass [cls] with
    integer value [n]; [VModel cls attrs] is an instance of the
    [TerraDataModel] subclass [cls] with its data attributes; [VOther] is
    any other object (it has neither [to_dict] nor [items], and is equal
    to neither [None] nor [[]]). *)
Inductive value : Type :=
| VNone
| VStr (s : string)
| VInt (n : Z)
| VBool (b : bool)
| VFloat (bits : Z)
| VDict (entries : list (string * value))
| VEnum (cls : string) (n : Z)
| VList (items : list value)
| VModel (cls : string) (attrs : list (string * value))
| VOther (tag : string).

(** A namespace or a [dict]: its entries in insertion order. *)
Abbreviation namespace := (list (string * value)).

(** The exceptions the codec can raise. *)
Inductive error : Type :=
| AttributeError
| KeyError
| IndexError
| TypeError
| RecursionError.

Inductive result (A : Type) : Type :=
| Ok (a : A)
| Raise (e : error).
Arguments Ok {A} a.
Arguments Raise {A} e.

Definition bind {A B : Type} (m : result A) (k : A -> result B) : result B :=
  match m with
  | Ok a => k a
  | Raise e => Raise e
  end.

Notation "'let*' x ':=' m 'in' k" := (bind m (fun x => k))
  (at level 10, x name, m at level 100, k at level 200).

Section Traversals.
Context {A B : Type}.

(** [[f(x) for x in l]], stopping at the first exception. *)
Fixpoint mapM (f : A -> result B) (l : list A) : result (list B) :=
  match l with
  | [] => Ok []
  | x :: rest =>
      let* y := f x in
      let* ys := mapM f rest in
      Ok (y :: ys)
  end.

(** [for x in l: s = f(s, x)], stopping at the first exception. *)
Fixpoint foldM (f : B -> A -> result B) (l : list A) (s : B) : result B :=
  match l with
  | [] => Ok s
  | x :: rest => let* s' := f s x in foldM f rest s'
  end.
End Traversals.

(** Two lists of the same length whose elements are related one for
    one. *)
Fixpoint all2 {A B : Type} (R : A -> B -> Prop) (l : list A) (l' : list B)
  : Prop :=
  match l, l' with
  | [], [] => True
  | a :: l, b :: l' => R a b /\ all2 R l l'
  | _, _ => False
  end.

(** ** Dictionaries and attribute namespaces *)

Section Dict.
Context {V : Type}.

(** [d.get(k)]: the value bound to [k], if any. *)
Fixpoint dict_get (k : string) (d : list (string * V)) : option V :=
  match d with
  | [] => None
  | (k', v) :: rest => if String.eqb k k' then Some v else dict_get k rest
  end.

(** [d[k] = v]: replaces the binding of [k] where it stands, or adds
    one at the end. *)
Fixpoint dict_set (k : string) (v : V) (d : list (string * V))
  : list (string * V) :=
  match d with
  | [] => [(k, v)]
  | (k', v') :: rest =>
      if String.eqb k k' then (k, v) :: rest
      else (k', v') :: dict_set k v rest
  end.

(** [getattr(obj, k)] and [getattr(obj, k, default)] on the namespace
    of [obj]. *)
Definition getattr (ns : list (string * V)) (k : string)
    (default : option V) : result V :=
  match dict_get k ns with
  | Some v => Ok v
  | None =>
      match default with
      | Some d => Ok d
      | None => Raise AttributeError
      end
  end.

(** [setattr(obj, k, v)]. *)
Definition setattr (ns : list (string * V)) (k : string) (v : V)
  : list (string * V) :=
  dict_set k v ns.
End Dict.

(** ** Classification of values *)

(** [PRIMITIVES = (str, int, bool, float, type(None), dict)], as the test
    [type(x) in PRIMITIVES]. *)
Definition PRIMITIVES (x : value) : bool :=
  match x with
  | VStr _ | VInt _ | VBool _ | VFloat _ | VNone | VDict _ => true
  | _ => false
  end.

(** [isinstance(x, TerraDataModel)]. *)
Definition is_model (x : value) : bool :=
  match x with
  | VModel _ _ => true
  | _ => false
  end.

(** [isinstance(x, list)]. *)
Definition is_list (x : value) : bool :=
  match x with
  | VList _ => true
  | _ => false
  end.

(** [x in [None, []]]. *)
Definition in_none_or_empty (x : value) : bool :=
  match x with
  | VNone => true
  | VList [] => true
  | _ => false
  end.

(** [x is None]. *)
Definition is_none (x : value) : bool :=
  match x with
  | VNone => true
  | _ => false
  end.

(** The default handed to [getattr] when [safe] is set. *)
Definition NOT_FOUND : value := VStr "NOT_FOUND".

Definition safe_default (safe : bool) : option value :=
  if safe then Some NOT_FOUND else None.

(** ** Attribute enumeration *)

(** The public names [dir(TerraDataModel)] holds; its other names start
    with an underscore. *)
Definition base_names : list string :=
  ["keys"; "values"; "items"; "to_dict"; "from_dict"; "from_dict_api";
   "populate_from_dict"].

(** Membership test of [_get_attrs]: the name is not one of
    [dir(TerraDataModel)] and does not start with an underscore. *)
Definition is_data_attr (a : string) : bool :=
  negb (startswith_underscore a) && negb (existsb (String.eqb a) base_names).

Definition _get_attrs {V : Type} (ns : list (string * V)) : list string :=
  filter (fun a => is_data_attr a = true) (map fst ns).

Definition keys {V : Type} (ns : list (string * V)) : list string :=
  _get_attrs ns.

Definition items {V : Type} (ns : list (string * V)) : list (string * V) :=
  filter (fun kv => is_data_attr (fst kv) = true) ns.

Definition values {V : Type} (ns : list (string * V)) : list V :=
  map snd (items ns).

(** ** Encode: [to_dict] *)

(** The test of line 73,
    [(attr_val and type(attr_val[0]) in PRIMITIVES) or not attr_val]:
    only the first element is looked at. *)
Definition passes_through (attr_val : list value) : bool :=
  match attr_val with
  | first :: _ => PRIMITIVES first
  | [] => true
  end.

(** The classification of one attribute value in the loop of [to_dict];
    [rec] is [to_dict] itself, called on nested values. *)
Definition to_dict_value (rec : value -> result value) (attr_val : value)
  : result value :=
  match attr_val with
  | VEnum _ n => Ok (VInt n)
  | VNone | VStr _ | VInt _ | VBool _ | VFloat _ | VDict _ => Ok attr_val
  | VList l =>
      if passes_through l then Ok attr_val
      else let* encoded := mapM rec l in Ok (VList encoded)
  | _ => rec attr_val
  end.

(** One round of the loop of [to_dict]. *)
Definition to_dict_step (rec : value -> result value) (output : namespace)
    (entry : string * value) : result namespace :=
  let '(attr, attr_val) := entry in
  if is_data_attr attr then
    let* x := to_dict_value rec attr_val in
    Ok (dict_set attr x output)
  else Ok output.

(** [self.to_dict()].  A value that is not a model has no [to_dict]. *)
Fixpoint to_dict (self : value) : result value :=
  match self with
  | VModel _ attrs =>
      let* output := foldM (to_dict_step to_dict) attrs [] in
      Ok (VDict output)
  | _ => Raise AttributeError
  end.

(** The depth of the calls of [to_dict] on a value. *)
Fixpoint height (x : value) : nat :=
  match x with
  | VModel _ attrs => S (list_max (map (fun kv => height (snd kv)) attrs))
  | VList l => list_max (map height l)
  | _ => 0
  end.

(** ** The classes the codec is used with *)

(** What the codec asks of the model classes: [construct cls] is the
    namespace of a fresh [cls()]; [dataclass_fields cls] is
    [{field.name: str(field.type)}] over [dataclasses.fields(cls())], or
    nothing when [cls] is not a dataclass; [locate name] is the class
    [pydoc.locate(name)] finds, if any. *)
Record classes : Type := {
  construct : string -> namespace;
  dataclass_fields : string -> option (list (string * string));
  locate : string -> option string
}.

Section Decode.
Variable env : classes.

(** Lines 115 and 118: [str(z[k]).split("[")[1].split("]")[0]], the
    element type name declared for the field [k] of [cls]. *)
Definition declared_element_name (cls k : string) : result string :=
  let* z := match dataclass_fields env cls with
            | Some z => Ok z
            | None => Raise TypeError
            end in
  let* ty := match dict_get k z with
             | Some ty => Ok ty
             | None => Raise KeyError
             end in
  let* after := match split "["%char ty with
                | _ :: after :: _ => Ok after
                | _ => Raise IndexError
                end in
  Ok (first_piece "]"%char after).

(** Lines 121-122: [terra.] is put before a name whose first segment
    is [models]. *)
Definition qualify (name : string) : string :=
  if String.eqb (first_piece "."%char name) "models"
  then "terra." +:+ name else name.

Definition current_field_name (cls k : string) : result string :=
  let* name := declared_element_name cls k in
  Ok (qualify name).

(** Lines 112-141: what a non-empty incoming list [v] becomes. *)
Definition resolve_list (rec : string -> value -> result value)
    (cls k : string) (v : list value) : result value :=
  let* name := current_field_name cls k in
  if String.eqb (first_piece "."%char name) "terra" then
    let* result :=
      mapM (fun inner_dict =>
              match locate env name with
              | Some inner_cls => rec inner_cls inner_dict
              | None => Raise TypeError
              end) v in
    Ok (VList result)
  else Ok (VList v).

(** The test of lines 100-104, on the value found and the incoming
    value. *)
Definition from_dict_eligible (inner_item v : value) : bool :=
  in_none_or_empty inner_item || is_model inner_item || is_list v.

(** One round of the loop of [from_dict]; [rec c m] is the call
    [c.from_dict(m)], with [safe] left at its default.  The call on line
    107 returns a model instance, so the test on line 110 fails after
    it (see [from_dict_returns_model]). *)
Definition from_dict_step (rec : string -> value -> result value)
    (cls : string) (safe : bool) (data_model : namespace)
    (entry : string * value) : result namespace :=
  let '(k, v) := entry in
  let* inner_item := getattr data_model k (safe_default safe) in
  if from_dict_eligible inner_item v then
    match inner_item with
    | VModel inner_cls _ =>
        let* v' := rec inner_cls v in
        Ok (setattr data_model k v')
    | _ =>
        match v with
        | VList ((_ :: _) as l) =>
            let* v' := resolve_list rec cls k l in
            Ok (setattr data_model k v')
        | _ => Ok (setattr data_model k v)
        end
    end
  else Ok data_model.

(** [model_dict.items()] is taken from a [dict], or from a model
    instance through its own [items]; [skip] tells the two apart. *)
Definition guarded {S : Type} (skip : bool)
    (step : S -> string * value -> result S) (s : S)
    (entry : string * value) : result S :=
  if skip && negb (is_data_attr (fst entry)) then Ok s else step s entry.

(** [cls.from_dict(model_dict, safe)]. *)
Fixpoint from_dict (cls : string) (model_dict : value) (safe : bool)
  : result value :=
  let rec := fun c m => from_dict c m false in
  match model_dict with
  | VDict d =>
      let* data_model :=
        foldM (from_dict_step rec cls safe) d (construct env cls) in
      Ok (VModel cls data_model)
  | VModel _ attrs =>
      let* data_model :=
        foldM (guarded true (from_dict_step rec cls safe)) attrs
              (construct env cls) in
      Ok (VModel cls data_model)
  | _ => Raise AttributeError
  end.

(** The loop of [from_dict] over the entries [d], from the state
    [data_model]. *)
Definition from_dict_loop (cls : string) (safe : bool) (d : namespace)
    (data_model : namespace) : result namespace :=
  foldM (from_dict_step (fun c m => from_dict c m false) cls safe) d
        data_model.

(** The test of lines 166-168. *)
Definition from_dict_api_eligible (inner_item : value) : bool :=
  in_none_or_empty inner_item || is_model inner_item.

(** One round of the loop of [from_dict_api]. *)
Definition from_dict_api_step (rec : string -> value -> result value)
    (safe : bool) (data_model : namespace) (entry : string * value)
  : result namespace :=
  let '(k, v) := entry in
  let* inner_item := getattr data_model k (safe_default safe) in
  if from_dict_api_eligible inner_item then
    match inner_item with
    | VModel inner_cls _ =>
        let* v' := rec inner_cls v in
        Ok (setattr data_model k v')
    | _ => Ok (setattr data_model k v)
    end
  else Ok data_model.

(** [cls.from_dict_api(model_dict, safe)]. *)
Fixpoint from_dict_api (cls : string) (model_dict : value) (safe : bool)
  : result value :=
  let rec := fun c m => from_dict_api c m false in
  match model_dict with
  | VDict d =>
      let* data_model :=
        foldM (from_dict_api_step rec safe) d (construct env cls) in
      Ok (VModel cls data_model)
  | VModel _ attrs =>
      let* data_model :=
        foldM (guarded true (from_dict_api_step rec safe)) attrs
              (construct env cls) in
      Ok (VModel cls data_model)
  | _ => Raise AttributeError
  end.

(** The loop of [from_dict_api] over the entries [d], from the state
    [data_model]. *)
Definition from_dict_api_loop (safe : bool) (d : namespace)
    (data_model : namespace) : result namespace :=
  foldM (from_dict_api_step (fun c m => from_dict_api c m false) safe) d
        data_model.
End Decode.

(** ** Merge: [populate_from_dict] *)

(** One round of the loop of [populate_from_dict]. *)
Definition populate_step (safe : bool) (self : namespace)
    (entry : string * value) : result namespace :=
  let '(k, v) := entry in
  let* current := getattr self k (safe_default safe) in
  if is_none current then Ok (setattr self k v) else Ok self.

(** The entries [model_dict.items()] runs over. *)
Definition mapping_items (model_dict : value) : result namespace :=
  match model_dict with
  | VDict d => Ok d
  | VModel _ attrs => Ok (items attrs)
  | _ => Raise AttributeError
  end.

(** [self.populate_from_dict(model_dict, safe)], on the namespace of
    [self]. *)
Definition populate_from_dict (self : namespace) (model_dict : value)
    (safe : bool) : result namespace :=
  let* entries := mapping_items model_dict in
  foldM (populate_step safe) entries self.

(** ** Round trip *)

(** Equality of structure: an [IntEnum] member counts as its integer, as
    it does for [==]; entries are compared in order. *)
Fixpoint normalize (x : value) : value :=
  match x with
  | VEnum _ n => VInt n
  | VDict d => VDict (map (fun kv => (fst kv, normalize (snd kv))) d)
  | VList l => VList (map normalize l)
  | VModel cls attrs =>
      VModel cls (map (fun kv => (fst kv, normalize (snd kv))) attrs)
  | _ => x
  end.

Definition structurally_equal (a b : value) : Prop :=
  normalize a = normalize b.

(** [type(a) is type(b)]. *)
Definition same_type (a b : value) : bool :=
  match a, b with
  | VNone, VNone | VStr _, VStr _ | VInt _, VInt _ | VBool _, VBool _
  | VFloat _, VFloat _ | VDict _, VDict _ | VList _, VList _ => true
  | VEnum c _, VEnum c' _ | VModel c _, VModel c' _ => String.eqb c c'
  | _, _ => false
  end.

(** An instance whose fields all hold concrete values: no [None], no
    empty list, no list of mixed types, at any depth of nested models. *)
Fixpoint fully_populated (x : value) : bool :=
  match x with
  | VNone | VOther _ => false
  | VList [] => false
  | VList ((first :: _) as l) =>
      forallb (same_type first) l && forallb fully_populated l
  | VModel _ attrs => forallb (fun kv => fully_populated (snd kv)) attrs
  | _ => true
  end.

(** The encoding [to_dict] gives for an attribute value, when it gives
    one and every attribute met is a data attribute. *)
Fixpoint encoded (x : value) : value :=
  match x with
  | VEnum _ n => VInt n
  | VList l => if passes_through l then x else VList (map encoded l)
  | VModel _ attrs => VDict (map (fun kv => (fst kv, encoded (snd kv))) attrs)
  | _ => x
  end.

(** What the strict decoder makes of that encoding, when the classes
    allow it. *)
Fixpoint decoded (x : value) : value :=
  match x with
  | VEnum _ n => VInt n
  | VList l => if passes_through l then x else VList (map decoded l)
  | VModel cls attrs =>
      VModel cls (map (fun kv => (fst kv, decoded (snd kv))) attrs)
  | _ => x
  end.

(** [isinstance(x, cls)] for a model class. *)
Definition is_instance (cls : string) (x : value) : bool :=
  match x with
  | VModel c _ => String.eqb c cls
  | _ => false
  end.

Section RoundTrippable.
Variable env : classes.

(** The field [k] of the class [cls] can carry the value [x] through
    [to_dict] and [from_dict]: with [d] the value of [k] in a fresh
    instance,
    - a primitive, [None] or an enumeration member needs [d] to be
      [None] or an empty list;
    - a nested model needs [d] to be a model of the same class, and to
      round-trip itself;
    - a list needs [d] not to be a model; when it is not empty, the
      field of [cls] must declare an element type name; when its first
      element is a primitive that name must not be qualified by
      [terra]; otherwise the name must be, the locator must find a
      class for it, and every element must be an instance of that class
      that round-trips. *)
Definition field_round_trips (rec : value -> bool) (cls k : string)
    (x : value) : bool :=
  match dict_get k (construct env cls) with
  | None => false
  | Some d =>
      match x with
      | VNone | VStr _ | VInt _ | VBool _ | VFloat _ | VDict _
      | VEnum _ _ => in_none_or_empty d
      | VModel c _ => is_instance c d && rec x
      | VList [] => negb (is_model d)
      | VList ((first :: _) as l) =>
          negb (is_model d) &&
          match current_field_name env cls k with
          | Ok name =>
              if PRIMITIVES first
              then negb (String.eqb (first_piece "."%char name) "terra")
              else String.eqb (first_piece "."%char name) "terra" &&
                   match locate env name with
                   | Some c => forallb (fun e => is_instance c e && rec e) l
                   | None => false
                   end
          | Raise _ => false
          end
      | VOther _ => false
      end
  end.

(** An instance that round-trips: it has the attributes of a fresh
    instance of its class, in the same order, all of them data
    attributes, and each of its fields round-trips. *)
Fixpoint round_trippable (x : value) : bool :=
  match x with
  | VModel cls attrs =>
      bool_decide (map fst attrs = map fst (construct env cls)) &&
      bool_decide (NoDup (map fst attrs)) &&
      forallb (fun kv => is_data_attr (fst kv)) attrs &&
      forallb (fun kv =>
                 field_round_trips round_trippable cls (fst kv) (snd kv))
              attrs
  | _ => false
  end.
End RoundTrippable.

(** What the round trip of one instance says. *)
Definition round_trips_at (env : classes) (x : value) : Prop :=
  forall cls attrs, x = VModel cls attrs -> round_trippable env x = true ->
    to_dict x = Ok (encoded x) /\
    forall safe, from_dict env cls (encoded x) safe = Ok (decoded x).

(** ** The codec on a heap of objects

    Lists, dictionaries and model instances are mutable objects: a value
    refers to them by their location, two values can refer to the same
    object, and a write changes the object for all of them.  The depth of
    the calls of [to_dict] is bounded by [fuel], the recursion limit of
    the interpreter: an object graph with a cycle runs into it. *)
Module Store.
Definition loc : Type := positive.

(** A value: an immutable value as such, or a reference to an object. *)
Inductive val : Type :=
| NoneV
| StrV (s : string)
| IntV (n : Z)
| BoolV (b : bool)
| FloatV (bits : Z)
| EnumV (cls : string) (n : Z)
| RefV (l : loc).

(** An object: a [list], a [dict], a model instance with its class and
    its data attributes, or an object of another type. *)
Inductive object : Type :=
| ListO (items : list val)
| DictO (entries : list (string * val))
| ModelO (cls : string) (attrs : list (string * val))
| OtherO (tag : string).

Abbreviation heap := (gmap loc object).

(** A new object, at a location that is not in use. *)
Definition alloc (h : heap) (o : object) : heap * loc :=
  let l := fresh (dom h) in (<[l := o]> h, l).

(** [type(x) in PRIMITIVES]. *)
Definition PRIMITIVES (h : heap) (x : val) : bool :=
  match x with
  | NoneV | StrV _ | IntV _ | BoolV _ | FloatV _ => true
  | EnumV _ _ => false
  | RefV l =>
      match h !! l with
      | Some (DictO _) => true
      | _ => false
      end
  end.

Definition passes_through (h : heap) (attr_val : list val) : bool :=
  match attr_val with
  | first :: _ => PRIMITIVES h first
  | [] => true
  end.

Definition NOT_FOUND : val := StrV "NOT_FOUND".

Definition safe_default (safe : bool) : option val :=
  if safe then Some NOT_FOUND else None.

(** [getattr(self, k)] and [getattr(self, k, default)] on the instance
    at [self]. *)
Definition load_attr (h : heap) (self : loc) (k : string)
    (default : option val) : result val :=
  match h !! self with
  | Some (ModelO _ attrs) => getattr attrs k default
  | _ => Raise AttributeError
  end.

(** [setattr(self, k, v)]: the instance at [self] is changed in place. *)
Definition store_attr (h : heap) (self : loc) (k : string) (v : val)
  : heap :=
  match h !! self with
  | Some (ModelO cls attrs) => <[self := ModelO cls (setattr attrs k v)]> h
  | _ => h
  end.

(** [output[k] = v]: the [dict] at [output] is changed in place. *)
Definition store_item (h : heap) (output : loc) (k : string) (v : val)
  : heap :=
  match h !! output with
  | Some (DictO d) => <[output := DictO (dict_set k v d)]> h
  | _ => h
  end.

(** [[f(x) for x in l]], the heap going from one call to the next. *)
Fixpoint mapM_heap (f : heap -> val -> result (heap * val))
    (l : list val) (h : heap) : result (heap * list val) :=
  match l with
  | [] => Ok (h, [])
  | x :: rest =>
      let* r := f h x in
      let* rs := mapM_heap f rest (fst r) in
      Ok (fst rs, snd r :: snd rs)
  end.

(** One round of the loop of [to_dict], for the attribute [attr] of the
    instance at [self], with the dictionary under construction at
    [output]; [rec] is [to_dict] itself. *)
Definition to_dict_step (rec : heap -> val -> result (heap * val))
    (self output : loc) (h : heap) (attr : string) : result heap :=
  let* attr_val := load_attr h self attr None in
  match attr_val with
  | EnumV _ n => Ok (store_item h output attr (IntV n))
  | NoneV | StrV _ | IntV _ | BoolV _ | FloatV _ =>
      Ok (store_item h output attr attr_val)
  | RefV r =>
      match h !! r with
      | Some (DictO _) => Ok (store_item h output attr attr_val)
      | Some (ListO l) =>
          if passes_through h l then Ok (store_item h output attr attr_val)
          else
            let* encoded := mapM_heap rec l h in
            let (h', fresh_list) := alloc (fst encoded) (ListO (snd encoded)) in
            Ok (store_item h' output attr (RefV fresh_list))
      | _ =>
          let* encoded := rec h attr_val in
          Ok (store_item (fst encoded) output attr (snd encoded))
      end
  end.

(** [self.to_dict()]: the heap after the call and the reference to the
    dictionary it returns. *)
Fixpoint to_dict (fuel : nat) (h : heap) (self : val)
  : result (heap * val) :=
  match fuel with
  | O => Raise RecursionError
  | S fuel =>
      match self with
      | RefV l =>
          match h !! l with
          | Some (ModelO _ attrs) =>
              let (h0, output) := alloc h (DictO []) in
              let* h' := foldM (to_dict_step (to_dict fuel) l output)
                           (_get_attrs attrs) h0 in
              Ok (h', RefV output)
          | _ => Raise AttributeError
          end
      | _ => Raise AttributeError
      end
  end.

(** The entries [model_dict.items()] runs over. *)
Definition mapping_items (h : heap) (model_dict : val)
  : result (list (string * val)) :=
  match model_dict with
  | RefV m =>
      match h !! m with
      | Some (DictO d) => Ok d
      | Some (ModelO _ attrs) => Ok (items attrs)
      | _ => Raise AttributeError
      end
  | _ => Raise AttributeError
  end.

(** One round of the loop of [populate_from_dict]. *)
Definition populate_step (self : loc) (safe : bool) (h : heap)
    (entry : string * val) : result heap :=
  let '(k, v) := entry in
  let* current := load_attr h self k (safe_default safe) in
  match current with
  | NoneV => Ok (store_attr h self k v)
  | _ => Ok h
  end.

(** [self.populate_from_dict(model_dict, safe)]: the heap after the
    call and the value it returns. *)
Definition populate_from_dict (h : heap) (self : loc) (model_dict : val)
    (safe : bool) : result (heap * val) :=
  let* entries := mapping_items h model_dict in
  let* h' := foldM (populate_step self safe) entries h in
  Ok (h', RefV self).

(** The value [v] stands, in the heap [h], for the tree [t]: following
    the references from [v] unfolds to [t].  The attributes of an
    instance have distinct names. *)
Fixpoint unfolds (h : heap) (t : value) (v : val) {struct t} : Prop :=
  match t with
  | VNone => v = NoneV
  | VStr s => v = StrV s
  | VInt n => v = IntV n
  | VBool b => v = BoolV b
  | VFloat bits => v = FloatV bits
  | VEnum cls n => v = EnumV cls n
  | VList ts =>
      exists l items,
        v = RefV l /\ h !! l = Some (ListO items) /\ all2 (unfolds h) ts items
  | VDict ts =>
      exists l entries,
        v = RefV l /\ h !! l = Some (DictO entries) /\
        all2 (fun t e => fst t = fst e /\ unfolds h (snd t) (snd e))
             ts entries
  | VModel cls ts =>
      exists l attrs,
        v = RefV l /\ h !! l = Some (ModelO cls attrs) /\
        NoDup (map fst attrs) /\
        all2 (fun t e => fst t = fst e /\ unfolds h (snd t) (snd e))
             ts attrs
  | VOther tag => exists l, v = RefV l /\ h !! l = Some (OtherO tag)
  end.

(** A heap for the examples: an [Outer] at 1 whose [inner] is the
    [Inner] at 2, whose [samples] is the list at 3, which holds that same
    [Inner], and whose [tags] is the list at 4; a [dict] at 5. *)
Definition example_heap : heap :=
  list_to_map
    [(1%positive, ModelO "Outer" [("inner", RefV 2%positive);
                                  ("samples", RefV 3%positive);
                                  ("tags", RefV 4%positive); ("opt", NoneV);
                                  ("x", IntV 3)]);
     (2%positive, ModelO "Inner" [("a", IntV 1); ("b", NoneV)]);
     (3%positive, ListO [RefV 2%positive]);
     (4%positive, ListO [StrV "run"]);
     (5%positive, DictO [("opt", IntV 7); ("x", IntV 9)])].
End Store.

(** What one round of [populate_from_dict] does to the attributes of
    [self]. *)
Definition populate_attrs (attrs : list (string * Store.val))
    (entry : string * Store.val) : list (string * Store.val) :=
  match dict_get (fst entry) attrs with
  | Some Store.NoneV => setattr attrs (fst entry) (snd entry)
  | _ => attrs
  end.

(** A heap for testable property 6 of the specification: an instance
    with [x = None] and [y = []] at 1, and the dictionary
    [{"x": 5, "y": [1, 2]}] at 3. *)
Definition merge_heap : Store.heap :=
  list_to_map
    [(1%positive, Store.ModelO "Inner" [("x", Store.NoneV);
                                        ("y", Store.RefV 2%positive)]);
     (2%positive, Store.ListO []);
     (3%positive, Store.DictO [("x", Store.IntV 5);
                               ("y", Store.RefV 4%positive)]);
     (4%positive, Store.ListO [Store.IntV 1; Store.IntV 2])].

(** ** The heap codec against the tree codec *)

(** What a call in the heap [h] has to return for the encoding [t'], when
    the part [hb] of [h] is what the argument unfolds in: a heap [h'] that
    extends [h], and a part [hb'] of it that extends [hb] with new objects
    only and in which the result unfolds to [t']. *)
Definition returns (hb h : Store.heap) (t' : value)
    (h' : Store.heap) (r : Store.val) (hb' : Store.heap) : Prop :=
  h ⊆ h' /\ hb ⊆ hb' /\ hb' ⊆ h' /\
  (forall l, is_Some (h !! l) -> hb !! l = None -> hb' !! l = None) /\
  Store.unfolds hb' t' r.

(** The call [rec] computes on the heap what [to_dict] computes on the
    tree [t]. *)
Definition computes
    (rec : Store.heap -> Store.val -> result (Store.heap * Store.val))
    (t : value) : Prop :=
  forall t' hb h v,
    to_dict t = Ok t' -> hb ⊆ h -> Store.unfolds hb t v ->
    exists h' r hb', rec h v = Ok (h', r) /\ returns hb h t' h' r hb'.

(** The state of the loop of [to_dict] on the heap: [h] and [hb] are the
    heap of the call and the part of it the instance unfolds in, [output]
    is the dictionary under construction, [acc] what the tree codec has
    put in its output so far. *)
Definition loop_inv (h hb : Store.heap) (output : Store.loc)
    (acc : namespace) (hc hbc : Store.heap) : Prop :=
  h ⊆ hc /\ hb ⊆ hbc /\ hbc ⊆ hc /\
  (forall l, is_Some (h !! l) \/ l = output -> hb !! l = None ->
             hbc !! l = None) /\
  exists out,
    hc !! output = Some (Store.DictO out) /\
    all2 (fun t e => fst t = fst e /\ Store.unfolds hbc (snd t) (snd e))
         acc out.

(** ** The running example: four model classes

    [Inner] has the fields [a] and [b], both [None] by default.  [Outer]
    has an integer [x] that defaults to 3, a nested [inner] that its
    constructor builds with [a = 3], a list [samples] of [Inner], an
    optional [opt] and a list [tags] of strings.  [Day] has fields whose
    defaults are [None], an empty [Inner] or an empty list.  [Bag] has a
    list [extras] whose declared element class cannot be located. *)
Module Example.
Definition Inner_defaults : namespace := [("a", VNone); ("b", VNone)].

Definition Outer_defaults : namespace :=
  [("x", VInt 3);
   ("inner", VModel "Inner" [("a", VInt 3); ("b", VNone)]);
   ("samples", VList []);
   ("opt", VNone);
   ("tags", VList [])].

Definition Day_defaults : namespace :=
  [("label", VNone);
   ("kind", VNone);
   ("inner", VModel "Inner" Inner_defaults);
   ("samples", VList []);
   ("tags", VList [])].

Definition Bag_defaults : namespace := [("extras", VList [])].

Definition env : classes := {|
  construct := fun cls =>
    if String.eqb cls "Inner" then Inner_defaults
    else if String.eqb cls "Outer" then Outer_defaults
    else if String.eqb cls "Day" then Day_defaults
    else if String.eqb cls "Bag" then Bag_defaults
    else [];
  dataclass_fields := fun cls =>
    if String.eqb cls "Inner" then
      Some [("a", "typing.Optional[int]"); ("b", "typing.Optional[str]")]
    else if String.eqb cls "Outer" then
      Some [("x", "int");
            ("inner", "models.Inner");
            ("samples", "typing.List[models.Inner]");
            ("opt", "typing.Optional[models.Inner]");
            ("tags", "typing.List[str]")]
    else if String.eqb cls "Day" then
      Some [("label", "typing.Optional[str]");
            ("kind", "typing.Optional[models.Kind]");
            ("inner", "models.Inner");
            ("samples", "typing.List[models.Inner]");
            ("tags", "typing.List[str]")]
    else if String.eqb cls "Bag" then
      Some [("extras", "typing.List[models.Missing]")]
    else None;
  locate := fun name =>
    if String.eqb name "terra.models.Inner" then Some "Inner" else None
|}.

(** An [Outer] whose fields all hold concrete values, and what the
    strict decoder makes of its encoding. *)
Definition populated_outer : value :=
  VModel "Outer"
    [("x", VInt 9);
     ("inner", VModel "Inner" [("a", VInt 1); ("b", VStr "am")]);
     ("samples", VList [VModel "Inner" [("a", VInt 2); ("b", VStr "pm")]]);
     ("opt", VModel "Inner" [("a", VInt 4); ("b", VStr "noon")]);
     ("tags", VList [VStr "run"])].

Definition populated_outer_decoded : value :=
  VModel "Outer"
    [("x", VInt 3);
     ("inner", VModel "Inner" [("a", VInt 1); ("b", VStr "am")]);
     ("samples", VList [VModel "Inner" [("a", VInt 2); ("b", VStr "pm")]]);
     ("opt", VDict [("a", VInt 4); ("b", VStr "noon")]);
     ("tags", VList [VStr "run"])].

(** A [Day] whose fields all hold concrete values. *)
Definition populated_day : value :=
  VModel "Day"
    [("label", VStr "mon");
     ("kind", VEnum "Kind" 2);
     ("inner", VModel "Inner" [("a", VInt 1); ("b", VStr "am")]);
     ("samples", VList [VModel "Inner" [("a", VInt 2); ("b", VStr "pm")];
                        VModel "Inner" [("a", VInt 3); ("b", VStr "pm")]]);
     ("tags", VList [VStr "run"; VStr "walk"])].

(** An instance whose [tags] start with a string and go on with a
    model, and whose [samples] are two models; and its encoding. *)
Definition mixed_attrs : namespace :=
  [("tags", VList [VStr "run"; VModel "Inner" [("a", VInt 1)]]);
   ("samples", VList [VModel "Inner" [("a", VInt 1)];
                      VModel "Inner" [("a", VInt 2)]])].

Definition mixed_output : namespace :=
  [("tags", VList [VStr "run"; VModel "Inner" [("a", VInt 1)]]);
   ("samples", VList [VDict [("a", VInt 1)]; VDict [("a", VInt 2)]])].
End Example.

(** ** Induction on values *)

(** The induction principle that reaches the values nested in the entries
    of a [dict], the items of a [list] and the attributes of a model. *)
Section ValueInduction.
Variable P : value -> Prop.
Hypothesis HNone : P VNone.
Hypothesis HStr : forall s, P (VStr s).
Hypothesis HInt : forall n, P (VInt n).
Hypothesis HBool : forall b, P (VBool b).
Hypothesis HFloat : forall bits, P (VFloat bits).
Hypothesis HDict :
  forall entries, Forall (fun kv => P (snd kv)) entries -> P (VDict entries).
Hypothesis HEnum : forall cls n, P (VEnum cls n).
Hypothesis HList : forall l, Forall P l -> P (VList l).
Hypothesis HModel :
  forall cls attrs, Forall (fun kv => P (snd kv)) attrs -> P (VModel cls attrs).
Hypothesis HOther : forall tag, P (VOther tag).

Fixpoint value_nested_ind (v : value) : P v :=
  match v with
  | VNone => HNone
  | VStr s => HStr s
  | VInt n => HInt n
  | VBool b => HBool b
  | VFloat bits => HFloat bits
  | VDict entries =>
      HDict entries
        ((fix go (l : namespace) : Forall (fun kv => P (snd kv)) l :=
            match l with
            | [] => List.Forall_nil _
            | kv :: rest =>
                List.Forall_cons _ kv rest (value_nested_ind (snd kv)) (go rest)
            end) entries)
  | VEnum cls n => HEnum cls n
  | VList l =>
      HList l
        ((fix go (l : list value) : Forall P l :=
            match l with
            | [] => List.Forall_nil _
            | x :: rest => List.Forall_cons _ x rest (value_nested_ind x) (go rest)
            end) l)
  | VModel cls attrs =>
      HModel cls attrs
        ((fix go (l : namespace) : Forall (fun kv => P (snd kv)) l :=
            match l with
            | [] => List.Forall_nil _
            | kv :: rest =>
                List.Forall_cons _ kv rest (value_nested_ind (snd kv)) (go rest)
            end) attrs)
  | VOther tag => HOther tag
  end.
End ValueInduction.

(** ** Auxiliary predicates and examples for the further properties *)

(** The attribute value [attr_val] can be encoded: it is an enumeration
    member, a primitive, a list that passes through or whose elements all
    have a [to_dict] that returns, or a value whose own [to_dict]
    returns; [rec] is [encodable] itself. *)
Definition value_encodable (rec : value -> bool) (attr_val : value) : bool :=
  match attr_val with
  | VEnum _ _ => true
  | VNone | VStr _ | VInt _ | VBool _ | VFloat _ | VDict _ => true
  | VList l => passes_through l || forallb rec l
  | _ => rec attr_val
  end.

(** [x] is a model instance whose data attributes can all be encoded. *)
Fixpoint encodable (x : value) : bool :=
  match x with
  | VModel _ attrs =>
      forallb (fun kv => negb (is_data_attr (fst kv)) ||
                         value_encodable encodable (snd kv)) attrs
  | _ => false
  end.

(** No list is met on the way of a decode of [m]: its values are not
    lists, and a mapping inside it holds no list either. *)
Fixpoint list_free (m : value) : bool :=
  match m with
  | VList _ => false
  | VDict d => forallb (fun kv => list_free (snd kv)) d
  | VModel _ attrs => forallb (fun kv => list_free (snd kv)) attrs
  | _ => true
  end.

(** [c in s]. *)
Fixpoint contains (c : ascii) (s : string) : bool :=
  match s with
  | EmptyString => false
  | String c' rest => Ascii.eqb c' c || contains c rest
  end.

(** [isinstance(v, dict)] or a model instance: [v] has [items]. *)
Definition has_items (v : value) : bool :=
  match v with
  | VDict _ | VModel _ _ => true
  | _ => false
  end.


(** An instance with a private attribute and an attribute that has the
    name of a method of the base class. *)
Definition private_attrs : namespace :=
  [("a", VInt 1); ("_cache", VInt 2); ("items", VInt 3)].

(** [r] is a result when [b] holds and [AttributeError] otherwise. *)
Definition returns_iff {A : Type} (b : bool) (r : result A) : Prop :=
  if b then exists y, r = Ok y else r = Raise AttributeError.

(** An instance with an enumeration member, a [dict] that holds a model,
    and a nested model; and its encoding. *)
Definition kinds_attrs : namespace :=
  [("kind", VEnum "Kind" 4);
   ("raw", VDict [("inner", VModel "Inner" [("a", VEnum "Kind" 1)])]);
   ("inner", VModel "Inner" [("a", VInt 1)])].

Definition kinds_output : namespace :=
  [("kind", VInt 4);
   ("raw", VDict [("inner", VModel "Inner" [("a", VEnum "Kind" 1)])]);
   ("inner", VDict [("a", VInt 1)])].

(** [tail] is empty or starts with a bracket. *)
Definition at_bracket (tail : string) : bool :=
  match tail with
  | EmptyString => true
  | String c _ => Ascii.eqb c "["%char || Ascii.eqb c "]"%char
  end.

(** A heap with an instance that refers to itself. *)
Definition cyclic_heap : Store.heap :=
  list_to_map
    [(1%positive, Store.ModelO "Node" [("next", Store.RefV 1%positive);
                                       ("label", Store.StrV "a")])].

(** The attribute value [v] is handed over by [to_dict] as it is when it
    is a reference: it refers to a [dict], or to a list that passes
    through. *)
Definition shared (h : Store.heap) (v : Store.val) : bool :=
  match v with
  | Store.RefV r =>
      match h !! r with
      | Some (Store.DictO _) => true
      | Some (Store.ListO l) => Store.passes_through h l
      | _ => false
      end
  | _ => false
  end.

(** The state of the loop of [to_dict] on the heap, for the sharing of
    the attribute [k]: the heap of the call is still there, the
    dictionary under construction is at [output], and it has the entry
    [entry] for [k] when one is asked for. *)
Definition sharing_inv (h : Store.heap) (output : Store.loc) (k : string)
    (entry : option Store.val) (hc : Store.heap) : Prop :=
  h ⊆ hc /\
  exists entries,
    hc !! output = Some (Store.DictO entries) /\
    forall v, entry = Some v -> dict_get k entries = Some v.

(** The name [a] is one that the base class defines for the codec: an
    attribute of that name on an instance or on its class hides the
    method. *)
Definition hides_method (a : string) : bool :=
  existsb (String.eqb a) ("_get_attrs" :: base_names).

(** No model instance met by a call on [x] hides a method of the base
    class: not [x] itself, not a model it holds, not an element of a list
    it holds.  What a [dict] holds is never called. *)
Fixpoint methods_intact (x : value) : bool :=
  match x with
  | VList l => forallb methods_intact l
  | VModel _ attrs =>
      forallb (fun kv => negb (hides_method (fst kv)) &&
                         methods_intact (snd kv)) attrs
  | _ => true
  end.

(** A JSON document: [None], strings, numbers, booleans, and [dict]s and
    lists of such. *)
Fixpoint json_like (m : value) : bool :=
  match m with
  | VNone | VStr _ | VInt _ | VBool _ | VFloat _ => true
  | VDict d => forallb (fun kv => json_like (snd kv)) d
  | VList l => forallb json_like l
  | _ => false
  end.

(** The call [rec] raises on the heap what [to_dict] raises on the tree
    [t]. *)
Definition fails
    (rec : Store.heap -> Store.val -> result (Store.heap * Store.val))
    (t : value) : Prop :=
  forall e hb h v,
    to_dict t = Raise e -> hb ⊆ h -> Store.unfolds hb t v ->
    rec h v = Raise e.

(** An [Outer] on the heap whose [inner] is not a model but a number
    inside a list: the list at 2 holds the [Inner] at 3 and the number
    7. *)
Definition mixed_heap : Store.heap :=
  list_to_map
    [(1%positive, Store.ModelO "Outer" [("x", Store.IntV 3);
                                        ("samples", Store.RefV 2%positive)]);
     (2%positive, Store.ListO [Store.RefV 3%positive; Store.IntV 7]);
     (3%positive, Store.ModelO "Inner" [("a", Store.IntV 1)])].

(** ** The examples of the specification *)

(** Testable property 4 of the specification: the elements of a list
    field are built as instances of the declared element class. *)
Example strict_decode_list_resolution :
  from_dict Example.env "Outer"
    (VDict [("samples", VList [VDict [("a", VInt 1)];
                               VDict [("a", VInt 2)]])]) false
  = Ok (VModel "Outer"
          [("x", VInt 3);
           ("inner", VModel "Inner" [("a", VInt 3); ("b", VNone)]);
           ("samples", VList [VModel "Inner" [("a", VInt 1); ("b", VNone)];
                              VModel "Inner" [("a", VInt 2); ("b", VNone)]]);
           ("opt", VNone);
           ("tags", VList [])]).
Proof. reflexivity. Qed.

(** Testable property 2: an enumeration member is encoded as its
    integer. *)
Example enum_encoding :
  to_dict (VModel "Inner" [("a", VEnum "Kind" 4); ("b", VStr "run")])
  = Ok (VDict [("a", VInt 4); ("b", VStr "run")]).
Proof. reflexivity. Qed.

(** Testable property 6: merging fills [x], which is [None], and leaves
    [y], which is an empty list. *)
Example merge_missing_is_null_only :
  populate_from_dict [("x", VNone); ("y", VList [])]
    (VDict [("x", VInt 5); ("y", VList [VInt 1; VInt 2])]) false
  = Ok [("x", VInt 5); ("y", VList [])].
Proof. reflexivity. Qed.

(** An attribute that shadows a name of the base class, or that starts
    with an underscore, is not enumerated. *)
Example enumeration_skips_base_names :
  keys [("a", VInt 1); ("_cache", VInt 2); ("items", VInt 3)] = ["a"] /\
  values [("a", VInt 1); ("_cache", VInt 2); ("items", VInt 3)] = [VInt 1].
Proof. split; reflexivity. Qed.

(** ** Facts about dictionaries *)

Section DictFacts.
Context {V : Type}.
Implicit Types (d : list (string * V)) (k : string) (v : V).

Lemma dict_get_set_eq d k v : dict_get k (dict_set k v d) = Some v.
Proof.
  induction d as [|[k' v'] d IH]; simpl.
  - by rewrite String.eqb_refl.
  - destruct (String.eqb k k') eqn:E; simpl; rewrite ?String.eqb_refl, ?E; done.
Qed.

Lemma dict_get_set_ne d k k' v :
  k <> k' -> dict_get k' (dict_set k v d) = dict_get k' d.
Proof.
  intros Hne. induction d as [|[k0 v0] d IH]; simpl.
  - apply String.eqb_neq in Hne. rewrite String.eqb_sym in Hne. by rewrite Hne.
  - destruct (String.eqb k k0) eqn:E; simpl.
    + apply String.eqb_eq in E. subst k0.
      assert (String.eqb k' k = false) as ->; [|done].
      apply String.eqb_neq. congruence.
    + by rewrite IH.
Qed.

Lemma dict_get_None d k : dict_get k d = None <-> k ∉ map fst d.
Proof.
  induction d as [|[k' v'] d IH]; simpl.
  - split; [intros _; apply not_elem_of_nil | done].
  - rewrite not_elem_of_cons. destruct (String.eqb k k') eqn:E.
    + apply String.eqb_eq in E. split; [done | intros [? _]; done].
    + apply String.eqb_neq in E. rewrite IH. tauto.
Qed.

Lemma dict_get_Some_elem d k v : dict_get k d = Some v -> (k, v) ∈ d.
Proof.
  induction d as [|[k' v'] d IH]; simpl; [done|].
  destruct (String.eqb k k') eqn:E.
  - apply String.eqb_eq in E. intros [= ->]. subst. apply list_elem_of_here.
  - intros H. apply list_elem_of_further. auto.
Qed.

Lemma dict_get_elem d k v :
  NoDup (map fst d) -> (k, v) ∈ d -> dict_get k d = Some v.
Proof.
  induction d as [|[k' v'] d IH]; simpl; intros Hnd Hin.
  - by apply elem_of_nil in Hin.
  - apply NoDup_cons in Hnd as [Hk' Hnd].
    apply elem_of_cons in Hin as [[= -> ->]|Hin].
    + by rewrite String.eqb_refl.
    + destruct (String.eqb k k') eqn:E; [|auto].
      apply String.eqb_eq in E. subst k'. exfalso. apply Hk'.
      apply list_elem_of_fmap. by exists (k, v).
Qed.

(** Setting a key that is bound keeps the keys and their order. *)
Lemma dict_set_keys d k v :
  k ∈ map fst d -> map fst (dict_set k v d) = map fst d.
Proof.
  induction d as [|[k' v'] d IH]; simpl; intros Hin.
  - by apply elem_of_nil in Hin.
  - destruct (String.eqb k k') eqn:E; simpl.
    + apply String.eqb_eq in E. by subst.
    + apply String.eqb_neq in E. apply elem_of_cons in Hin as [?|Hin]; [done|].
      by rewrite IH.
Qed.

(** Setting a key reaches the first binding of that key only. *)
Lemma dict_set_app_fresh d1 d2 k v :
  k ∉ map fst d1 -> dict_set k v (d1 ++ d2) = d1 ++ dict_set k v d2.
Proof.
  induction d1 as [|[k' v'] d1 IH]; simpl; intros Hk; [done|].
  apply not_elem_of_cons in Hk as [Hne Hk].
  apply String.eqb_neq in Hne. rewrite Hne. by rewrite IH.
Qed.

Lemma dict_get_app_fresh d1 d2 k :
  k ∉ map fst d1 -> dict_get k (d1 ++ d2) = dict_get k d2.
Proof.
  induction d1 as [|[k' v'] d1 IH]; simpl; intros Hk; [done|].
  apply not_elem_of_cons in Hk as [Hne Hk].
  apply String.eqb_neq in Hne. rewrite Hne. auto.
Qed.

Lemma getattr_Ok ns k v default :
  dict_get k ns = Some v -> getattr ns k default = Ok v.
Proof. unfold getattr. by intros ->. Qed.
End DictFacts.

(** ** Facts about the two traversals *)

Lemma bind_Ok {A B : Type} (m : result A) (k : A -> result B) (b : B) :
  bind m k = Ok b -> exists a, m = Ok a /\ k a = Ok b.
Proof. destruct m as [a|e]; simpl; [eauto | done]. Qed.

Lemma mapM_Ok_Forall2 {A B : Type} (f : A -> result B) l l' :
  mapM f l = Ok l' <-> Forall2 (fun x y => f x = Ok y) l l'.
Proof.
  revert l'. induction l as [|x l IH]; intros l'; simpl.
  - split; [intros [= <-]; constructor | by inversion 1].
  - split.
    + intros (y & Hy & H)%bind_Ok. apply bind_Ok in H as (ys & Hys & [= <-]).
      constructor; [done | by apply IH].
    + inversion 1 as [|? y ? ys Hy Hys]; subst. rewrite Hy. simpl.
      apply IH in Hys. by rewrite Hys.
Qed.

Lemma mapM_ext_Forall {A B : Type} (f g : A -> result B) l :
  Forall (fun x => f x = g x) l -> mapM f l = mapM g l.
Proof.
  induction 1 as [|x l Hx _ IH]; simpl; [done|]. by rewrite Hx, IH.
Qed.

Lemma foldM_cons {A B : Type} (f : B -> A -> result B) x l s :
  foldM f (x :: l) s = let* s' := f s x in foldM f l s'.
Proof. reflexivity. Qed.

Lemma foldM_app {A B : Type} (f : B -> A -> result B) l1 l2 s :
  foldM f (l1 ++ l2) s = let* s' := foldM f l1 s in foldM f l2 s'.
Proof.
  revert s. induction l1 as [|x l1 IH]; intros s; simpl; [done|].
  destruct (f s x); simpl; auto.
Qed.

(** A property of the state that every round keeps holds at the end. *)
Lemma foldM_invariant {A B : Type} (f : B -> A -> result B) (I : B -> Prop)
    l s s' :
  (forall s x s', x ∈ l -> I s -> f s x = Ok s' -> I s') ->
  I s -> foldM f l s = Ok s' -> I s'.
Proof.
  revert s. induction l as [|x l IH]; simpl; intros s Hstep Hs H.
  - by injection H as <-.
  - apply bind_Ok in H as (s1 & H1 & H). eapply IH; [| |exact H].
    + intros ? ? ? ?. apply Hstep. by apply list_elem_of_further.
    + eapply Hstep; [apply list_elem_of_here | exact Hs | exact H1].
Qed.

Lemma foldM_ext_Forall {A B : Type} (f g : B -> A -> result B) l s :
  Forall (fun x => forall s, f s x = g s x) l -> foldM f l s = foldM g l s.
Proof.
  intros H. revert s. induction H as [|x l Hx _ IH]; intros s; simpl; [done|].
  rewrite Hx. destruct (g s x); simpl; auto.
Qed.

(** A round that leaves the binding of [k0] alone for every other key
    leaves it alone over a mapping that does not mention [k0]. *)
Lemma foldM_frame (f : namespace -> string * value -> result namespace)
    (k0 : string) d s s' :
  (forall s kv s', f s kv = Ok s' -> fst kv <> k0 ->
                   dict_get k0 s' = dict_get k0 s) ->
  k0 ∉ map fst d -> foldM f d s = Ok s' -> dict_get k0 s' = dict_get k0 s.
Proof.
  intros Hf. revert s. induction d as [|kv d IH]; simpl; intros s Hk H.
  - by injection H as <-.
  - apply not_elem_of_cons in Hk as [Hne Hk].
    apply bind_Ok in H as (s1 & H1 & H).
    rewrite (IH _ Hk H). eapply Hf; [exact H1 | congruence].
Qed.

(** ** The shape of one round of each loop *)

Ltac step_cases :=
  repeat match goal with
  | H : bind _ _ = Ok _ |- _ =>
      let x := fresh "x" in
      let Hx := fresh "Hx" in
      apply bind_Ok in H as (x & Hx & H)
  | H : Ok _ = Ok _ |- _ => injection H as H
  | H : Raise _ = Ok _ |- _ => discriminate H
  | H : (if ?b then _ else _) = Ok _ |- _ => destruct b eqn:?
  | H : match ?x with _ => _ end = Ok _ |- _ => destruct x eqn:?
  end.

(** A round of [from_dict] first reads the attribute, then leaves the
    instance as it is or sets that one attribute. *)
Lemma from_dict_step_shape env rec cls safe dm k v dm' :
  from_dict_step env rec cls safe dm (k, v) = Ok dm' ->
  exists inner_item,
    getattr dm k (safe_default safe) = Ok inner_item /\
    (dm' = dm \/ exists x, dm' = setattr dm k x).
Proof.
  unfold from_dict_step. intros H.
  apply bind_Ok in H as (inner_item & Hget & H). exists inner_item.
  split; [done|]. step_cases; subst;
    first [by left | right; eexists; reflexivity].
Qed.

Lemma from_dict_api_step_shape rec safe dm k v dm' :
  from_dict_api_step rec safe dm (k, v) = Ok dm' ->
  exists inner_item,
    getattr dm k (safe_default safe) = Ok inner_item /\
    (dm' = dm \/ exists x, dm' = setattr dm k x).
Proof.
  unfold from_dict_api_step. intros H.
  apply bind_Ok in H as (inner_item & Hget & H). exists inner_item.
  split; [done|]. step_cases; subst;
    first [by left | right; eexists; reflexivity].
Qed.

Lemma populate_step_shape safe self k v self' :
  populate_step safe self (k, v) = Ok self' ->
  exists current,
    getattr self k (safe_default safe) = Ok current /\
    (self' = self \/ (current = VNone /\ self' = setattr self k v)).
Proof.
  unfold populate_step. intros H.
  apply bind_Ok in H as (current & Hget & H). exists current.
  split; [done|]. destruct current; simpl in H; injection H as <-; auto.
Qed.

Lemma getattr_strict_Ok (ns : namespace) k x :
  getattr ns k None = Ok x -> dict_get k ns = Some x.
Proof. unfold getattr. destruct (dict_get k ns); [by intros [= ->] | done]. Qed.

Lemma from_dict_step_frame env rec cls safe dm kv dm' k0 :
  from_dict_step env rec cls safe dm kv = Ok dm' -> fst kv <> k0 ->
  dict_get k0 dm' = dict_get k0 dm.
Proof.
  destruct kv as [k v]. cbn [fst].
  intros (inner & _ & [->|[x ->]])%from_dict_step_shape Hne; [done|].
  by apply dict_get_set_ne.
Qed.

Lemma from_dict_api_step_frame rec safe dm kv dm' k0 :
  from_dict_api_step rec safe dm kv = Ok dm' -> fst kv <> k0 ->
  dict_get k0 dm' = dict_get k0 dm.
Proof.
  destruct kv as [k v]. cbn [fst].
  intros (inner & _ & [->|[x ->]])%from_dict_api_step_shape Hne; [done|].
  by apply dict_get_set_ne.
Qed.

(** With [safe] unset a round keeps the attribute names of the instance. *)
Lemma from_dict_step_keys env rec cls dm kv dm' :
  from_dict_step env rec cls false dm kv = Ok dm' ->
  map fst dm' = map fst dm.
Proof.
  destruct kv as [k v].
  intros (inner & Hget & [->|[x ->]])%from_dict_step_shape; [done|].
  apply getattr_strict_Ok in Hget. apply dict_set_keys.
  apply dict_get_Some_elem in Hget. apply list_elem_of_fmap. by exists (k, inner).
Qed.

Lemma from_dict_api_step_keys rec dm kv dm' :
  from_dict_api_step rec false dm kv = Ok dm' ->
  map fst dm' = map fst dm.
Proof.
  destruct kv as [k v].
  intros (inner & Hget & [->|[x ->]])%from_dict_api_step_shape; [done|].
  apply getattr_strict_Ok in Hget. apply dict_set_keys.
  apply dict_get_Some_elem in Hget. apply list_elem_of_fmap. by exists (k, inner).
Qed.

(** ** Unfolding the decoders on a [dict] *)

Lemma from_dict_VDict env cls d safe :
  from_dict env cls (VDict d) safe =
  let* data_model := from_dict_loop env cls safe d (construct env cls) in
  Ok (VModel cls data_model).
Proof. reflexivity. Qed.

Lemma from_dict_api_VDict env cls d safe :
  from_dict_api env cls (VDict d) safe =
  let* data_model := from_dict_api_loop env safe d (construct env cls) in
  Ok (VModel cls data_model).
Proof. reflexivity. Qed.

Lemma from_dict_loop_cons env cls safe kv d dm :
  from_dict_loop env cls safe (kv :: d) dm =
  let* dm' := from_dict_step env (fun c m => from_dict env c m false)
                cls safe dm kv in
  from_dict_loop env cls safe d dm'.
Proof. reflexivity. Qed.

Lemma from_dict_api_loop_cons env safe kv d dm :
  from_dict_api_loop env safe (kv :: d) dm =
  let* dm' := from_dict_api_step (fun c m => from_dict_api env c m false)
                safe dm kv in
  from_dict_api_loop env safe d dm'.
Proof. reflexivity. Qed.

Lemma from_dict_loop_app env cls safe d1 d2 dm :
  from_dict_loop env cls safe (d1 ++ d2) dm =
  let* dm' := from_dict_loop env cls safe d1 dm in
  from_dict_loop env cls safe d2 dm'.
Proof. apply foldM_app. Qed.

Lemma from_dict_api_loop_app env safe d1 d2 dm :
  from_dict_api_loop env safe (d1 ++ d2) dm =
  let* dm' := from_dict_api_loop env safe d1 dm in
  from_dict_api_loop env safe d2 dm'.
Proof. apply foldM_app. Qed.

(** The decoders return an instance of the class they were called on. *)
Lemma from_dict_returns_model env cls m safe r :
  from_dict env cls m safe = Ok r -> exists attrs, r = VModel cls attrs.
Proof.
  destruct m; simpl; try done;
    intros (dm & _ & [= <-])%bind_Ok; eauto.
Qed.

Lemma from_dict_api_returns_model env cls m safe r :
  from_dict_api env cls m safe = Ok r -> exists attrs, r = VModel cls attrs.
Proof.
  destruct m; simpl; try done;
    intros (dm & _ & [= <-])%bind_Ok; eauto.
Qed.

(** ** Silent skip *)

(** Over a mapping with distinct keys, what the round on [(k, v)] makes
    of the attribute [k] is what the loop ends with, when the rounds on
    other keys leave [k] alone. *)
Lemma foldM_at_key (f : namespace -> string * value -> result namespace)
    k v (before : option value) (Q : option value -> Prop) d :
  (forall s kv s', f s kv = Ok s' -> fst kv <> k ->
                   dict_get k s' = dict_get k s) ->
  (forall s s', dict_get k s = before -> f s (k, v) = Ok s' ->
                Q (dict_get k s')) ->
  NoDup (map fst d) -> (k, v) ∈ d ->
  forall s s', dict_get k s = before -> foldM f d s = Ok s' ->
               Q (dict_get k s').
Proof.
  intros Hframe Hround. induction d as [|kv d IH]; intros Hnd Hin s s' Hs H.
  - by apply elem_of_nil in Hin.
  - simpl in Hnd. apply NoDup_cons in Hnd as [Hfresh Hnd].
    simpl in H. apply bind_Ok in H as (s1 & H1 & H).
    apply elem_of_cons in Hin as [<-|Hin].
    + rewrite (foldM_frame f k d s1 s' Hframe Hfresh H).
      by apply (Hround s s1).
    + apply (IH Hnd Hin s1 s'); [|done].
      rewrite <- Hs. apply (Hframe s kv s1 H1).
      intros Heq. apply Hfresh. apply list_elem_of_fmap.
      exists (k, v). by rewrite Heq.
Qed.

(** A loop whose round on [(k, v)] leaves the instance as it is, and whose
    rounds on other keys leave [k] alone, ends with [k] as it found it. *)
Lemma foldM_keeps (f : namespace -> string * value -> result namespace)
    k v existing d :
  (forall s kv s', f s kv = Ok s' -> fst kv <> k ->
                   dict_get k s' = dict_get k s) ->
  (forall s, dict_get k s = Some existing -> f s (k, v) = Ok s) ->
  NoDup (map fst d) -> (k, v) ∈ d ->
  forall s s', dict_get k s = Some existing -> foldM f d s = Ok s' ->
               dict_get k s' = Some existing.
Proof.
  intros Hframe Hskip Hnd Hin s s' Hs H.
  apply (foldM_at_key f k v (Some existing) (fun o => o = Some existing) d
           Hframe) with (s := s); try done.
  intros s0 s1 Hs0 Hstep. rewrite (Hskip s0 Hs0) in Hstep.
  by injection Hstep as <-.
Qed.

Lemma not_none_or_empty existing :
  existing <> VNone -> existing <> VList [] -> in_none_or_empty existing = false.
Proof. destruct existing as [| | | | | | |[|]| |]; simpl; congruence. Qed.

Lemma from_dict_step_skip env rec cls safe dm k v existing :
  dict_get k dm = Some existing ->
  in_none_or_empty existing = false -> is_model existing = false ->
  is_list v = false ->
  from_dict_step env rec cls safe dm (k, v) = Ok dm.
Proof.
  intros Hget H1 H2 H3. unfold from_dict_step.
  rewrite (getattr_Ok _ _ _ _ Hget). simpl.
  unfold from_dict_eligible. by rewrite H1, H2, H3.
Qed.

Lemma from_dict_api_step_skip rec safe dm k v existing :
  dict_get k dm = Some existing ->
  in_none_or_empty existing = false -> is_model existing = false ->
  from_dict_api_step rec safe dm (k, v) = Ok dm.
Proof.
  intros Hget H1 H2. unfold from_dict_api_step.
  rewrite (getattr_Ok _ _ _ _ Hget). simpl.
  unfold from_dict_api_eligible. by rewrite H1, H2.
Qed.

(** C7.  When the attribute [k] holds a value that is not [None], not an
    empty list and not a nested model, and the incoming value is not a
    list, a round of the strict and of the permissive decoder on [(k, v)]
    returns the instance unchanged, without raising; and a decode of a
    whole mapping that holds [(k, v)] ends with the value a fresh instance
    has for [k]. *)
Theorem silent_skip env cls safe k v existing :
  existing <> VNone -> existing <> VList [] -> is_model existing = false ->
  is_list v = false ->
  (forall rec dm, dict_get k dm = Some existing ->
     from_dict_step env rec cls safe dm (k, v) = Ok dm) /\
  (forall rec dm, dict_get k dm = Some existing ->
     from_dict_api_step rec safe dm (k, v) = Ok dm) /\
  (forall d attrs,
     dict_get k (construct env cls) = Some existing ->
     NoDup (map fst d) -> (k, v) ∈ d ->
     from_dict env cls (VDict d) safe = Ok (VModel cls attrs) ->
     dict_get k attrs = Some existing) /\
  (forall d attrs,
     dict_get k (construct env cls) = Some existing ->
     NoDup (map fst d) -> (k, v) ∈ d ->
     from_dict_api env cls (VDict d) safe = Ok (VModel cls attrs) ->
     dict_get k attrs = Some existing).
Proof.
  intros Hnone Hempty Hmodel Hlist.
  pose proof (not_none_or_empty existing Hnone Hempty) as Hne.
  split; [|split; [|split]].
  - intros rec dm Hget. by eapply from_dict_step_skip.
  - intros rec dm Hget. by eapply from_dict_api_step_skip.
  - intros d attrs Hget Hnd Hin H. rewrite from_dict_VDict in H.
    apply bind_Ok in H as (dm & Hloop & [= <-]).
    eapply (foldM_keeps _ k v existing d); [| |done|done|exact Hget|exact Hloop].
    + intros ? ? ?. apply from_dict_step_frame.
    + intros s Hs. by eapply from_dict_step_skip.
  - intros d attrs Hget Hnd Hin H. rewrite from_dict_api_VDict in H.
    apply bind_Ok in H as (dm & Hloop & [= <-]).
    eapply (foldM_keeps _ k v existing d); [| |done|done|exact Hget|exact Hloop].
    + intros ? ? ?. apply from_dict_api_step_frame.
    + intros s Hs. by eapply from_dict_api_step_skip.
Qed.

(** Testable property 7 of the specification, on the running example:
    [x] is 3 in a fresh [Outer] and stays 3. *)
Lemma silent_skip_witness :
  from_dict_step Example.env (fun _ _ => Raise TypeError) "Outer" false
    Example.Outer_defaults ("x", VInt 9) = Ok Example.Outer_defaults.
Proof.
  refine (proj1 (silent_skip Example.env "Outer" false "x" (VInt 9) (VInt 3)
                   _ _ _ _) _ _ _); done.
Defined.

(** ** The two eligibility tests *)







(** ** Lists whose element type is not a model *)

Lemma qualify_other name :
  first_piece "."%char name <> "models" -> qualify name = name.
Proof.
  intros H. unfold qualify. apply String.eqb_neq in H. by rewrite H.
Qed.

(** The claim C4 fails: the element type of [extras] is declared as
    [models.Missing], which the locator does not find, and the decode
    raises a [TypeError] instead of passing the list through. *)
Lemma unlocated_element_type_raises :
  current_field_name Example.env "Bag" "extras" = Ok "terra.models.Missing" /\
  locate Example.env "terra.models.Missing" = None /\
  from_dict Example.env "Bag" (VDict [("extras", VList [VDict []])]) false
    = Raise TypeError.
Proof. repeat split. Qed.

Lemma from_dict_step_unqualified env rec cls safe dm k x l existing name :
  getattr dm k (safe_default safe) = Ok existing ->
  is_model existing = false ->
  declared_element_name env cls k = Ok name ->
  first_piece "."%char name <> "models" ->
  first_piece "."%char name <> "terra" ->
  from_dict_step env rec cls safe dm (k, VList (x :: l))
  = Ok (setattr dm k (VList (x :: l))).
Proof.
  intros Hget Hmodel Hname Hmodels Hterra. unfold from_dict_step.
  rewrite Hget. simpl. unfold from_dict_eligible.
  replace (is_list (VList (x :: l))) with true by done.
  rewrite orb_true_r.
  assert (resolve_list env rec cls k (x :: l) = Ok (VList (x :: l))) as Hres.
  { unfold resolve_list, current_field_name. rewrite Hname. simpl.
    rewrite (qualify_other _ Hmodels).
    apply String.eqb_neq in Hterra. by rewrite Hterra. }
  destruct existing; try discriminate Hmodel; by rewrite Hres.
Qed.

Lemma getattr_same_lookup {V : Type} (ns ns' : list (string * V)) k default :
  dict_get k ns = dict_get k ns' -> getattr ns k default = getattr ns' k default.
Proof. unfold getattr. by intros ->. Qed.

(** C4, amended.  In a strict decode of a key whose incoming value is a
    non-empty list, when the value found at the attribute is not a nested
    model and the first segment of the declared element type name is
    neither [models] nor [terra], the round does not raise and sets the
    attribute to the list as it came, without consulting the locator; and
    a decode of a whole mapping that holds the entry ends with that list
    at the attribute. *)
Theorem unqualified_list_passes_through env cls safe k x l name :
  declared_element_name env cls k = Ok name ->
  first_piece "."%char name <> "models" ->
  first_piece "."%char name <> "terra" ->
  (forall rec dm existing,
     getattr dm k (safe_default safe) = Ok existing ->
     is_model existing = false ->
     from_dict_step env rec cls safe dm (k, VList (x :: l))
     = Ok (setattr dm k (VList (x :: l)))) /\
  (forall d attrs existing,
     getattr (construct env cls) k (safe_default safe) = Ok existing ->
     is_model existing = false ->
     NoDup (map fst d) -> (k, VList (x :: l)) ∈ d ->
     from_dict env cls (VDict d) safe = Ok (VModel cls attrs) ->
     dict_get k attrs = Some (VList (x :: l))).
Proof.
  intros Hname Hmodels Hterra. split.
  - intros rec dm existing Hget Hmodel.
    by apply (from_dict_step_unqualified _ _ _ _ _ _ _ _ existing name).
  - intros d attrs existing Hget Hmodel Hnd Hin H.
    rewrite from_dict_VDict in H.
    apply bind_Ok in H as (dm & Hloop & [= <-]). unfold from_dict_loop in Hloop.
    apply (foldM_at_key _ k (VList (x :: l))
             (dict_get k (construct env cls))
             (fun o => o = Some (VList (x :: l))) d
             (fun s kv s' =>
                from_dict_step_frame env (fun c m => from_dict env c m false)
                  cls safe s kv s' k))
      with (s := construct env cls); try done.
    intros s s' Hs Hstep.
    rewrite (from_dict_step_unqualified _ _ _ _ _ _ _ _ existing name)
      in Hstep; try done.
    + injection Hstep as <-. apply dict_get_set_eq.
    + by rewrite (getattr_same_lookup s (construct env cls)).
Qed.

(** On the running example: [tags] is declared as [typing.List[str]]. *)
Lemma unqualified_list_passes_through_witness :
  from_dict_step Example.env (fun c m => from_dict Example.env c m false)
    "Outer" false Example.Outer_defaults ("tags", VList [VStr "run"; VStr "am"])
  = Ok (setattr Example.Outer_defaults "tags" (VList [VStr "run"; VStr "am"])).
Proof.
  apply (proj1 (unqualified_list_passes_through Example.env "Outer" false
                  "tags" (VStr "run") [VStr "am"] "str"
                  eq_refl ltac:(discriminate) ltac:(discriminate)))
    with (existing := VList []); reflexivity.
Defined.

(** ** Nested models are rebuilt from their class *)

(** The claim C8 fails: the nested instance a fresh [Outer] holds has
    [a = 3]; the incoming mapping for [inner] does not mention [a]; after
    the decode [a] is [None], the value a fresh [Inner] has. *)
Lemma nested_instance_not_reused :
  dict_get "inner" (construct Example.env "Outer")
    = Some (VModel "Inner" [("a", VInt 3); ("b", VNone)]) /\
  from_dict Example.env "Outer" (VDict [("inner", VDict [("b", VStr "hi")])])
    false
    = Ok (VModel "Outer"
            [("x", VInt 3);
             ("inner", VModel "Inner" [("a", VNone); ("b", VStr "hi")]);
             ("samples", VList []);
             ("opt", VNone);
             ("tags", VList [])]).
Proof. split; reflexivity. Qed.

(** Attributes that the incoming mapping does not mention hold the value
    a fresh instance has. *)
Lemma from_dict_absent_field env cls d safe attrs f :
  from_dict env cls (VDict d) safe = Ok (VModel cls attrs) ->
  f ∉ map fst d ->
  dict_get f attrs = dict_get f (construct env cls).
Proof.
  rewrite from_dict_VDict. intros (dm & Hloop & [= <-])%bind_Ok Hf.
  eapply foldM_frame; [|exact Hf|exact Hloop].
  intros ? ? ?. apply from_dict_step_frame.
Qed.

(** In a strict decode, the round on an attribute that holds a nested
    model of class [c] calls [from_dict] on the class [c], with [safe]
    unset, and sets the attribute to what it returns; the attributes of
    the instance found are not read. *)
Lemma from_dict_step_nested env cls safe dm k v c a :
  dict_get k dm = Some (VModel c a) ->
  from_dict_step env (fun c m => from_dict env c m false) cls safe dm (k, v)
  = (let* v' := from_dict env c v false in Ok (setattr dm k v')).
Proof.
  intros Hget. unfold from_dict_step. by rewrite (getattr_Ok _ _ _ _ Hget).
Qed.

(** C8, amended.  In a strict decode of a mapping with the entry
    [(k, nested)], when the attribute [k] of a fresh instance holds a
    nested model of class [c], the attribute ends as the instance that
    [from_dict] on the class [c], with [safe] unset, builds from [nested]:
    a fresh instance of [c], in which a field that [nested] does not
    mention holds the value a fresh instance of [c] has, whatever the
    nested model found held. *)
Theorem nested_model_is_rebuilt env cls safe d k nested c a attrs :
  dict_get k (construct env cls) = Some (VModel c a) ->
  NoDup (map fst d) ->
  (k, VDict nested) ∈ d ->
  from_dict env cls (VDict d) safe = Ok (VModel cls attrs) ->
  exists attrs',
    dict_get k attrs = Some (VModel c attrs') /\
    from_dict env c (VDict nested) false = Ok (VModel c attrs') /\
    forall f, f ∉ map fst nested ->
              dict_get f attrs' = dict_get f (construct env c).
Proof.
  intros Hget Hnd Hin H. rewrite from_dict_VDict in H.
  apply bind_Ok in H as (dm & Hloop & [= <-]).
  assert (exists attrs',
            dict_get k dm = Some (VModel c attrs') /\
            from_dict env c (VDict nested) false = Ok (VModel c attrs'))
    as (attrs' & Hk & Hnested).
  { unfold from_dict_loop in Hloop.
    apply (foldM_at_key _ k (VDict nested) (Some (VModel c a))
             (fun o => exists attrs',
                o = Some (VModel c attrs') /\
                from_dict env c (VDict nested) false = Ok (VModel c attrs'))
             d (fun s kv s' =>
                  from_dict_step_frame env (fun c m => from_dict env c m false)
                    cls safe s kv s' k))
      with (s := construct env cls); try done.
    intros s s' Hs Hstep. rewrite (from_dict_step_nested _ _ _ _ _ _ _ _ Hs) in Hstep.
    apply bind_Ok in Hstep as (v' & Hv' & [= <-]).
    destruct (from_dict_returns_model _ _ _ _ _ Hv') as [attrs' ->].
    exists attrs'. split; [apply dict_get_set_eq | done]. }
  exists attrs'. split; [done|]. split; [done|].
  intros f Hf. by eapply from_dict_absent_field.
Qed.

(** On the running example: [b] comes from the mapping and [a], which the
    mapping does not mention, is [None] as in a fresh [Inner], not 3 as in
    the [Inner] a fresh [Outer] holds. *)
Lemma nested_model_is_rebuilt_witness :
  exists attrs',
    dict_get "inner"
      [("x", VInt 3);
       ("inner", VModel "Inner" [("a", VNone); ("b", VStr "hi")]);
       ("samples", VList []); ("opt", VNone); ("tags", VList [])]
    = Some (VModel "Inner" attrs') /\
    from_dict Example.env "Inner" (VDict [("b", VStr "hi")]) false
    = Ok (VModel "Inner" attrs') /\
    forall f, f ∉ map fst [("b", VStr "hi")] ->
              dict_get f attrs' = dict_get f (construct Example.env "Inner").
Proof.
  apply (nested_model_is_rebuilt Example.env "Outer" true
           [("inner", VDict [("b", VStr "hi")])] "inner" [("b", VStr "hi")]
           "Inner" [("a", VInt 3); ("b", VNone)]).
  - reflexivity.
  - compute_done.
  - apply list_elem_of_here.
  - reflexivity.
Defined.

(** ** The [safe] flag *)

Lemma unknown_key_strict env rec cls dm k v :
  dict_get k dm = None ->
  from_dict_step env rec cls false dm (k, v) = Raise AttributeError /\
  from_dict_api_step rec false dm (k, v) = Raise AttributeError /\
  populate_step false dm (k, v) = Raise AttributeError.
Proof.
  intros H. unfold from_dict_step, from_dict_api_step, populate_step, getattr.
  by rewrite H.
Qed.

(** With [safe] set, the permissive decoder and the merge skip a key the
    instance does not have, whatever its value; the strict decoder skips
    it when its value is not a list. *)
Lemma unknown_key_safe env rec cls dm k v :
  dict_get k dm = None ->
  from_dict_api_step rec true dm (k, v) = Ok dm /\
  populate_step true dm (k, v) = Ok dm /\
  (is_list v = false -> from_dict_step env rec cls true dm (k, v) = Ok dm).
Proof.
  intros H. unfold from_dict_step, from_dict_api_step, populate_step, getattr.
  rewrite H. simpl. repeat split. unfold from_dict_eligible. simpl.
  by intros ->.
Qed.

(** With [safe] set, the strict decoder lets a key the instance does not
    have through when its value is a list: an empty list is added to the
    instance as a new attribute, and a non-empty list is looked up in the
    field types, where a key that is not a field raises [KeyError]. *)
Lemma unknown_key_safe_list env rec cls dm k l :
  dict_get k dm = None ->
  from_dict_step env rec cls true dm (k, VList l)
  = match l with
    | [] => Ok (setattr dm k (VList []))
    | _ :: _ => let* v' := resolve_list env rec cls k l in
                Ok (setattr dm k v')
    end.
Proof.
  intros H. unfold from_dict_step, getattr. rewrite H. simpl.
  by destruct l.
Qed.

(** C2, the failing input.  [Outer] has no attribute [unknown].  With
    [safe] set, [from_dict] raises [KeyError] on a non-empty list under
    that key and adds the key to the instance on an empty list, while
    [from_dict_api] and [populate_from_dict] skip the key in both cases. *)
Theorem safe_from_dict_unknown_key_with_list :
  dict_get "unknown" (construct Example.env "Outer") = None /\
  from_dict Example.env "Outer" (VDict [("unknown", VList [VInt 1])]) true
    = Raise KeyError /\
  from_dict Example.env "Outer" (VDict [("unknown", VList [])]) true
    = Ok (VModel "Outer" (Example.Outer_defaults ++ [("unknown", VList [])])) /\
  from_dict_api Example.env "Outer" (VDict [("unknown", VList [VInt 1])]) true
    = Ok (VModel "Outer" Example.Outer_defaults) /\
  populate_from_dict Example.Outer_defaults
    (VDict [("unknown", VList [VInt 1])]) true
    = Ok Example.Outer_defaults.
Proof. repeat split. Qed.

(** ** The [safe] flag stops at the first level *)

Lemma from_dict_loop_keys env cls d dm dm' :
  from_dict_loop env cls false d dm = Ok dm' -> map fst dm' = map fst dm.
Proof.
  unfold from_dict_loop. intros H.
  eapply (foldM_invariant _ (fun s => map fst s = map fst dm) d dm dm');
    [|done|exact H].
  intros s kv s' _ Hs Hstep. rewrite <- Hs. by eapply from_dict_step_keys.
Qed.

Lemma from_dict_api_loop_keys env d dm dm' :
  from_dict_api_loop env false d dm = Ok dm' -> map fst dm' = map fst dm.
Proof.
  unfold from_dict_api_loop. intros H.
  eapply (foldM_invariant _ (fun s => map fst s = map fst dm) d dm dm');
    [|done|exact H].
  intros s kv s' _ Hs Hstep. rewrite <- Hs. by eapply from_dict_api_step_keys.
Qed.

Lemma dict_get_None_keys {V : Type} (d d' : list (string * V)) k :
  map fst d' = map fst d -> dict_get k d = None -> dict_get k d' = None.
Proof. rewrite !dict_get_None. by intros ->. Qed.

(** A strict decode with [safe] unset raises [AttributeError] at the
    first key that the class does not have. *)
Lemma from_dict_strict_unknown_key env cls pre k x post dm :
  from_dict_loop env cls false pre (construct env cls) = Ok dm ->
  dict_get k (construct env cls) = None ->
  from_dict env cls (VDict (pre ++ (k, x) :: post)) false
  = Raise AttributeError.
Proof.
  intros Hpre Hk. rewrite from_dict_VDict, from_dict_loop_app, Hpre. simpl.
  rewrite from_dict_loop_cons.
  apply from_dict_loop_keys in Hpre.
  pose proof (dict_get_None_keys _ _ k Hpre Hk) as Hdm.
  by rewrite (proj1 (unknown_key_strict env _ cls dm k x Hdm)).
Qed.

Lemma from_dict_api_strict_unknown_key env cls pre k x post dm :
  from_dict_api_loop env false pre (construct env cls) = Ok dm ->
  dict_get k (construct env cls) = None ->
  from_dict_api env cls (VDict (pre ++ (k, x) :: post)) false
  = Raise AttributeError.
Proof.
  intros Hpre Hk. rewrite from_dict_api_VDict, from_dict_api_loop_app, Hpre.
  simpl. rewrite from_dict_api_loop_cons.
  apply from_dict_api_loop_keys in Hpre.
  pose proof (dict_get_None_keys _ _ k Hpre Hk) as Hdm.
  by rewrite (proj1 (proj2 (unknown_key_strict env _ cls dm k x Hdm))).
Qed.

Lemma mapM_app_Raise {A B : Type} (f : A -> result B) pre x post ys e :
  mapM f pre = Ok ys -> f x = Raise e ->
  mapM f (pre ++ x :: post) = Raise e.
Proof.
  revert ys. induction pre as [|p pre IH]; simpl; intros ys Hpre Hx.
  - by rewrite Hx.
  - apply bind_Ok in Hpre as (y & Hy & Hpre).
    apply bind_Ok in Hpre as (ys' & Hys & _).
    rewrite Hy. simpl. by rewrite (IH ys' Hys Hx).
Qed.

(** What a nested strict decode raises with [safe] unset is raised by the
    enclosing decode, whatever its own [safe]. *)
Lemma from_dict_nested_raise env cls safe opre k v opost odm c a e :
  from_dict_loop env cls safe opre (construct env cls) = Ok odm ->
  dict_get k odm = Some (VModel c a) ->
  from_dict env c v false = Raise e ->
  from_dict env cls (VDict (opre ++ (k, v) :: opost)) safe = Raise e.
Proof.
  intros Hpre Hget Hv. rewrite from_dict_VDict, from_dict_loop_app, Hpre.
  simpl. rewrite from_dict_loop_cons. unfold from_dict_step.
  rewrite (getattr_Ok _ _ _ _ Hget). simpl. by rewrite Hv.
Qed.

Lemma from_dict_api_nested_raise env cls safe opre k v opost odm c a e :
  from_dict_api_loop env safe opre (construct env cls) = Ok odm ->
  dict_get k odm = Some (VModel c a) ->
  from_dict_api env c v false = Raise e ->
  from_dict_api env cls (VDict (opre ++ (k, v) :: opost)) safe = Raise e.
Proof.
  intros Hpre Hget Hv. rewrite from_dict_api_VDict, from_dict_api_loop_app, Hpre.
  simpl. rewrite from_dict_api_loop_cons. unfold from_dict_api_step.
  rewrite (getattr_Ok _ _ _ _ Hget). simpl. by rewrite Hv.
Qed.

(** What the decode of an element of a resolved list raises with [safe]
    unset is raised by the enclosing decode, whatever its own [safe]. *)
Lemma from_dict_element_raise env cls safe opre k lpre el lpost opost odm
    existing name c decoded e :
  from_dict_loop env cls safe opre (construct env cls) = Ok odm ->
  getattr odm k (safe_default safe) = Ok existing ->
  is_model existing = false ->
  current_field_name env cls k = Ok name ->
  first_piece "."%char name = "terra" ->
  locate env name = Some c ->
  mapM (fun m => from_dict env c m false) lpre = Ok decoded ->
  from_dict env c el false = Raise e ->
  from_dict env cls (VDict (opre ++ (k, VList (lpre ++ el :: lpost)) :: opost))
    safe = Raise e.
Proof.
  intros Hpre Hget Hmodel Hname Hterra Hloc Hlpre Hel.
  rewrite from_dict_VDict, from_dict_loop_app, Hpre. simpl.
  rewrite from_dict_loop_cons. unfold from_dict_step. rewrite Hget. simpl.
  unfold from_dict_eligible.
  replace (is_list (VList (lpre ++ el :: lpost))) with true by done.
  rewrite orb_true_r.
  assert (resolve_list env (fun c m => from_dict env c m false) cls k
            (lpre ++ el :: lpost) = Raise e) as Hres.
  { unfold resolve_list. rewrite Hname. simpl. rewrite Hterra. simpl.
    rewrite Hloc.
    by rewrite (mapM_app_Raise _ lpre el lpost decoded e Hlpre Hel). }
  destruct existing; try discriminate Hmodel;
    destruct lpre; simpl; simpl in Hres; by rewrite Hres.
Qed.

(** C10.  Let [k'] be a key that the class [c] does not have, inside a
    mapping whose earlier keys decode.  A decode called with [safe] set
    raises [AttributeError] when that mapping comes in for an attribute
    that holds a nested model of class [c] (strict and permissive
    decoder), and when it is an element of a list whose declared element
    class is [c] (strict decoder): the nested calls run with [safe]
    unset. *)
Theorem safe_is_not_propagated env c k' x pre post :
  dict_get k' (construct env c) = None ->
  (forall cls opre k opost odm a dm1,
     from_dict_loop env cls true opre (construct env cls) = Ok odm ->
     dict_get k odm = Some (VModel c a) ->
     from_dict_loop env c false pre (construct env c) = Ok dm1 ->
     from_dict env cls
       (VDict (opre ++ (k, VDict (pre ++ (k', x) :: post)) :: opost)) true
     = Raise AttributeError) /\
  (forall cls opre k lpre lpost opost odm existing name decoded dm1,
     from_dict_loop env cls true opre (construct env cls) = Ok odm ->
     getattr odm k (safe_default true) = Ok existing ->
     is_model existing = false ->
     current_field_name env cls k = Ok name ->
     first_piece "."%char name = "terra" ->
     locate env name = Some c ->
     mapM (fun m => from_dict env c m false) lpre = Ok decoded ->
     from_dict_loop env c false pre (construct env c) = Ok dm1 ->
     from_dict env cls
       (VDict (opre ++
               (k, VList (lpre ++ VDict (pre ++ (k', x) :: post) :: lpost))
               :: opost)) true
     = Raise AttributeError) /\
  (forall cls opre k opost odm a dm1,
     from_dict_api_loop env true opre (construct env cls) = Ok odm ->
     dict_get k odm = Some (VModel c a) ->
     from_dict_api_loop env false pre (construct env c) = Ok dm1 ->
     from_dict_api env cls
       (VDict (opre ++ (k, VDict (pre ++ (k', x) :: post)) :: opost)) true
     = Raise AttributeError).
Proof.
  intros Hk'. split; [|split].
  - intros cls opre k opost odm a dm1 Hopre Hget Hpre.
    eapply from_dict_nested_raise; [exact Hopre|exact Hget|].
    by eapply from_dict_strict_unknown_key.
  - intros cls opre k lpre lpost opost odm existing name decoded dm1
      Hopre Hget Hmodel Hname Hterra Hloc Hlpre Hpre.
    eapply from_dict_element_raise; try done.
    by eapply from_dict_strict_unknown_key.
  - intros cls opre k opost odm a dm1 Hopre Hget Hpre.
    eapply from_dict_api_nested_raise; [exact Hopre|exact Hget|].
    by eapply from_dict_api_strict_unknown_key.
Qed.

(** On the running example: [Inner] has no attribute [zzz].  With [safe]
    set, the key is skipped at the first level and raises one level
    down. *)
Lemma safe_is_not_propagated_witness :
  from_dict Example.env "Inner" (VDict [("zzz", VInt 1)]) true
    = Ok (VModel "Inner" Example.Inner_defaults) /\
  from_dict Example.env "Outer"
    (VDict [("inner", VDict [("zzz", VInt 1)])]) true = Raise AttributeError /\
  from_dict Example.env "Outer"
    (VDict [("samples", VList [VDict [("zzz", VInt 1)]])]) true
    = Raise AttributeError /\
  from_dict_api Example.env "Outer"
    (VDict [("inner", VDict [("zzz", VInt 1)])]) true = Raise AttributeError.
Proof.
  pose proof (safe_is_not_propagated Example.env "Inner" "zzz" (VInt 1) [] []
                eq_refl) as (Hmodel & Hlist & Hapi).
  split; [reflexivity|]. split; [|split].
  - exact (Hmodel "Outer" [] "inner" [] Example.Outer_defaults
             [("a", VInt 3); ("b", VNone)] Example.Inner_defaults
             eq_refl eq_refl eq_refl).
  - exact (Hlist "Outer" [] "samples" [] [] [] Example.Outer_defaults
             (VList []) "terra.models.Inner" [] Example.Inner_defaults
             eq_refl eq_refl eq_refl eq_refl eq_refl eq_refl eq_refl eq_refl).
  - exact (Hapi "Outer" [] "inner" [] Example.Outer_defaults
             [("a", VInt 3); ("b", VNone)] Example.Inner_defaults
             eq_refl eq_refl eq_refl).
Defined.

(** ** Lists in [to_dict] *)

Lemma to_dict_VModel cls attrs :
  to_dict (VModel cls attrs) =
  let* output := foldM (to_dict_step to_dict) attrs [] in Ok (VDict output).
Proof. reflexivity. Qed.

Lemma to_dict_step_frame rec output kv output' k0 :
  to_dict_step rec output kv = Ok output' -> fst kv <> k0 ->
  dict_get k0 output' = dict_get k0 output.
Proof.
  destruct kv as [attr attr_val]. unfold to_dict_step. cbn [fst].
  destruct (is_data_attr attr); [|by intros [= <-]].
  intros (y & _ & [= <-])%bind_Ok Hne. by apply dict_get_set_ne.
Qed.

(** The entry of [output] for a data attribute is the encoding of its
    value. *)
Lemma to_dict_loop_lookup rec attrs attr attr_val :
  NoDup (map fst attrs) -> (attr, attr_val) ∈ attrs ->
  is_data_attr attr = true ->
  forall acc output, foldM (to_dict_step rec) attrs acc = Ok output ->
  exists y, to_dict_value rec attr_val = Ok y /\ dict_get attr output = Some y.
Proof.
  intros Hnd Hin Hdata. induction attrs as [|kv attrs IH]; intros acc output H.
  - by apply elem_of_nil in Hin.
  - simpl in Hnd. apply NoDup_cons in Hnd as [Hfresh Hnd].
    simpl in H. apply bind_Ok in H as (acc1 & H1 & H).
    apply elem_of_cons in Hin as [<-|Hin].
    + unfold to_dict_step in H1. rewrite Hdata in H1.
      apply bind_Ok in H1 as (y & Hy & [= <-]). exists y. split; [done|].
      rewrite (foldM_frame _ attr attrs _ _
                 (fun s kv s' => to_dict_step_frame rec s kv s' attr) Hfresh H).
      apply dict_get_set_eq.
    + by apply (IH Hnd Hin acc1 output).
Qed.

(** C5.  For a data attribute of an instance that holds a list [l]: when
    [l] is empty or its first element is a primitive, [to_dict] puts [l]
    itself in the output, whatever the later elements are; otherwise it
    puts the list of the encodings of the elements of [l], in order. *)
Theorem to_dict_list_attribute cls attrs attr l output :
  NoDup (map fst attrs) ->
  (attr, VList l) ∈ attrs ->
  is_data_attr attr = true ->
  to_dict (VModel cls attrs) = Ok (VDict output) ->
  to_dict_value to_dict (VList l)
  = (if passes_through l then Ok (VList l)
     else let* encoded := mapM to_dict l in Ok (VList encoded)) /\
  (passes_through l = true -> dict_get attr output = Some (VList l)) /\
  (passes_through l = false ->
   exists encoded,
     dict_get attr output = Some (VList encoded) /\
     Forall2 (fun item y => to_dict item = Ok y) l encoded).
Proof.
  intros Hnd Hin Hdata H. split; [done|].
  rewrite to_dict_VModel in H. apply bind_Ok in H as (out & Hloop & [= <-]).
  destruct (to_dict_loop_lookup to_dict attrs attr (VList l) Hnd Hin Hdata
              [] out Hloop) as (y & Hy & Hout).
  simpl in Hy. split; intros Hpass; rewrite Hpass in Hy.
  - by injection Hy as <-.
  - apply bind_Ok in Hy as (encoded & Henc & [= <-]).
    exists encoded. split; [done|]. by apply mapM_Ok_Forall2.
Qed.

(** On an instance whose [tags] start with a string and go on with a
    model, and whose [samples] are two models. *)
Lemma to_dict_list_attribute_witness :
  to_dict (VModel "Outer" Example.mixed_attrs)
  = Ok (VDict Example.mixed_output) /\
  dict_get "tags" Example.mixed_output
  = Some (VList [VStr "run"; VModel "Inner" [("a", VInt 1)]]) /\
  exists encoded,
    dict_get "samples" Example.mixed_output = Some (VList encoded) /\
    Forall2 (fun item y => to_dict item = Ok y)
      [VModel "Inner" [("a", VInt 1)]; VModel "Inner" [("a", VInt 2)]] encoded.
Proof.
  assert (NoDup (map fst Example.mixed_attrs)) as Hnd by compute_done.
  split; [reflexivity|]. split.
  - refine (proj1 (proj2 (to_dict_list_attribute "Outer" Example.mixed_attrs
      "tags" [VStr "run"; VModel "Inner" [("a", VInt 1)]] Example.mixed_output
      Hnd _ eq_refl eq_refl)) eq_refl).
    apply list_elem_of_here.
  - refine (proj2 (proj2 (to_dict_list_attribute "Outer" Example.mixed_attrs
      "samples" [VModel "Inner" [("a", VInt 1)]; VModel "Inner" [("a", VInt 2)]]
      Example.mixed_output Hnd _ eq_refl eq_refl)) eq_refl).
    apply list_elem_of_further, list_elem_of_here.
Defined.

(** ** Round trip: the proof *)

Lemma dict_set_fresh {V : Type} (d : list (string * V)) k v :
  k ∉ map fst d -> dict_set k v d = d ++ [(k, v)].
Proof.
  intros Hk. rewrite <- (app_nil_r d) at 1.
  by rewrite (dict_set_app_fresh d [] k v Hk).
Qed.

Lemma mapM_map_Ok {A B C : Type} (f : B -> result C) (g : A -> B)
    (h : A -> C) l :
  Forall (fun x => f (g x) = Ok (h x)) l -> mapM f (map g l) = Ok (map h l).
Proof.
  induction 1 as [|x l Hx _ IH]; simpl; [done|]. by rewrite Hx, IH.
Qed.

(** The loop of [to_dict] over data attributes with distinct names that
    all encode: the output lists the encodings in the order of the
    attributes. *)
Lemma to_dict_loop_all rec (enc : value -> value) attrs acc :
  NoDup (map fst acc ++ map fst attrs) ->
  forallb (fun kv => is_data_attr (fst kv)) attrs = true ->
  Forall (fun kv => to_dict_value rec (snd kv) = Ok (enc (snd kv))) attrs ->
  foldM (to_dict_step rec) attrs acc
  = Ok (acc ++ map (fun kv => (fst kv, enc (snd kv))) attrs).
Proof.
  revert acc. induction attrs as [|[k x] attrs IH]; intros acc Hnd Hdata Henc.
  - simpl. by rewrite app_nil_r.
  - simpl in Hdata. apply andb_true_iff in Hdata as [Hk Hdata].
    apply Forall_cons in Henc as [Hx Henc]. cbn [snd] in Hx.
    simpl. rewrite Hk, Hx. simpl.
    assert (k ∉ map fst acc) as Hfresh.
    { apply NoDup_app in Hnd as (_ & Hdisj & _). intros Hin.
      apply (Hdisj k Hin). simpl. apply list_elem_of_here. }
    rewrite (dict_set_fresh acc k (enc x) Hfresh).
    rewrite IH; [by rewrite <- app_assoc | | done | done].
    rewrite map_app. simpl. by rewrite <- app_assoc.
Qed.

(** A loop of a decoder over entries that go, one for one and in order,
    with the attributes still at their defaults: each round replaces one
    default. *)
Lemma decode_loop_all (f : namespace -> string * value -> result namespace)
    (enc dec : value -> value) todo dtodo finished :
  Forall2 (fun kv kd =>
             fst kv = fst kd /\
             forall dm, dict_get (fst kv) dm = Some (snd kd) ->
                        f dm (fst kv, enc (snd kv))
                        = Ok (setattr dm (fst kv) (dec (snd kv))))
          todo dtodo ->
  NoDup (map fst finished ++ map fst todo) ->
  foldM f (map (fun kv => (fst kv, enc (snd kv))) todo) (finished ++ dtodo)
  = Ok (finished ++ map (fun kv => (fst kv, dec (snd kv))) todo).
Proof.
  intros H. revert finished.
  induction H as [|[k x] [k' d] todo dtodo [Hk Hstep] _ IH]; intros finished Hnd.
  - done.
  - cbn [fst snd] in Hk, Hstep. subst k'. simpl.
    assert (k ∉ map fst finished) as Hfresh.
    { apply NoDup_app in Hnd as (_ & Hdisj & _). intros Hin.
      apply (Hdisj k Hin). simpl. apply list_elem_of_here. }
    rewrite Hstep.
    2:{ rewrite (dict_get_app_fresh finished _ k Hfresh). simpl.
        by rewrite String.eqb_refl. }
    simpl. unfold setattr. rewrite (dict_set_app_fresh finished _ k _ Hfresh).
    simpl. rewrite String.eqb_refl.
    replace (finished ++ (k, dec x) :: dtodo)
      with ((finished ++ [(k, dec x)]) ++ dtodo) by by rewrite <- app_assoc.
    rewrite IH; [by rewrite <- app_assoc|].
    rewrite map_app. simpl. by rewrite <- app_assoc.
Qed.

Lemma Forall2_defaults (R : string -> value -> value -> Prop)
    (todo dtodo : namespace) :
  map fst todo = map fst dtodo -> NoDup (map fst dtodo) ->
  (forall k x d, (k, x) ∈ todo -> dict_get k dtodo = Some d -> R k x d) ->
  Forall2 (fun kv kd => fst kv = fst kd /\ R (fst kv) (snd kv) (snd kd))
          todo dtodo.
Proof.
  revert dtodo. induction todo as [|[k x] todo IH];
    intros [|[k' d] dtodo]; simpl; intros Hkeys Hnd HR; try done.
  injection Hkeys as <- Hkeys. apply NoDup_cons in Hnd as [Hfresh Hnd].
  constructor.
  - split; [done|]. cbn [fst snd]. apply HR; [apply list_elem_of_here|].
    by rewrite String.eqb_refl.
  - apply IH; [done|done|]. intros k0 x0 d0 Hin Hget.
    apply HR; [by apply list_elem_of_further|].
    destruct (String.eqb k0 k) eqn:E; [|done].
    apply String.eqb_eq in E. subst k0. exfalso. apply Hfresh.
    apply dict_get_Some_elem in Hget. apply list_elem_of_fmap.
    by exists (k, d0).
Qed.

Lemma round_trippable_VModel env cls attrs :
  round_trippable env (VModel cls attrs)
  = bool_decide (map fst attrs = map fst (construct env cls)) &&
    bool_decide (NoDup (map fst attrs)) &&
    forallb (fun kv => is_data_attr (fst kv)) attrs &&
    forallb (fun kv => field_round_trips env (round_trippable env) cls
                         (fst kv) (snd kv)) attrs.
Proof. reflexivity. Qed.

Lemma is_instance_true cls x :
  is_instance cls x = true -> exists attrs, x = VModel cls attrs.
Proof.
  destruct x; try done. simpl. intros ->%String.eqb_eq. eauto.
Qed.

Lemma in_none_or_empty_not_model d :
  in_none_or_empty d = true -> is_model d = false.
Proof. by destruct d. Qed.

(** A value that is not a list and is set where the default is [None] or
    an empty list. *)
Lemma from_dict_step_plain env rec cls safe dm k v d :
  dict_get k dm = Some d -> in_none_or_empty d = true -> is_list v = false ->
  from_dict_step env rec cls safe dm (k, v) = Ok (setattr dm k v).
Proof.
  intros Hget Hd Hv. unfold from_dict_step.
  rewrite (getattr_Ok _ _ _ _ Hget). simpl.
  unfold from_dict_eligible. rewrite Hd. simpl.
  destruct d as [| | | | | | |[|]| |]; try discriminate Hd;
    destruct v; try discriminate Hv; done.
Qed.

Lemma from_dict_step_list env rec cls safe dm k l d :
  dict_get k dm = Some d -> is_model d = false ->
  from_dict_step env rec cls safe dm (k, VList l)
  = match l with
    | [] => Ok (setattr dm k (VList []))
    | _ :: _ => let* v' := resolve_list env rec cls k l in
                Ok (setattr dm k v')
    end.
Proof.
  intros Hget Hd. unfold from_dict_step.
  rewrite (getattr_Ok _ _ _ _ Hget). simpl.
  unfold from_dict_eligible. simpl. rewrite orb_true_r.
  destruct d; try discriminate Hd; by destruct l.
Qed.

Lemma encoded_VList l :
  encoded (VList l)
  = if passes_through l then VList l else VList (map encoded l).
Proof. reflexivity. Qed.

Lemma decoded_VList l :
  decoded (VList l)
  = if passes_through l then VList l else VList (map decoded l).
Proof. reflexivity. Qed.

Lemma field_round_trip env cls k x d :
  round_trips_at env x ->
  (forall l, x = VList l -> Forall (round_trips_at env) l) ->
  dict_get k (construct env cls) = Some d ->
  field_round_trips env (round_trippable env) cls k x = true ->
  to_dict_value to_dict x = Ok (encoded x) /\
  forall safe dm, dict_get k dm = Some d ->
    from_dict_step env (fun c m => from_dict env c m false) cls safe dm
      (k, encoded x)
    = Ok (setattr dm k (decoded x)).
Proof.
  intros HQ HQl Hd Hf. unfold field_round_trips in Hf. rewrite Hd in Hf.
  destruct x as [| | | | | | |l|c a|].
  1-7: split; [done|]; intros safe dm Hdm;
       by apply (from_dict_step_plain _ _ _ _ _ _ _ d).
  - destruct l as [|first rest].
    + apply negb_true_iff in Hf. split; [done|]. intros safe dm Hdm.
      rewrite encoded_VList, decoded_VList. cbn [passes_through].
      by rewrite (from_dict_step_list _ _ _ _ _ _ _ d).
    + apply andb_true_iff in Hf as [Hmodel Hf]. apply negb_true_iff in Hmodel.
      destruct (current_field_name env cls k) as [name|] eqn:Hname; [|done].
      rewrite encoded_VList, decoded_VList. cbn [passes_through].
      unfold to_dict_value. cbn [passes_through].
      destruct (PRIMITIVES first) eqn:Hprim.
      * apply negb_true_iff in Hf. split; [done|].
        intros safe dm Hdm.
        rewrite (from_dict_step_list _ _ _ _ _ _ _ d Hdm Hmodel).
        unfold resolve_list. rewrite Hname. simpl. by rewrite Hf.
      * apply andb_true_iff in Hf as [Hterra Hf].
        destruct (locate env name) as [c|] eqn:Hloc; [|done].
        assert (Forall (fun e => to_dict e = Ok (encoded e) /\
                   from_dict env c (encoded e) false = Ok (decoded e))
                  (first :: rest)) as Hall.
        { specialize (HQl _ eq_refl). rewrite Forall_forall in HQl.
          apply Forall_forall. intros e He.
          rewrite forallb_forall in Hf.
          specialize (Hf e (proj1 (list_elem_of_In _ _) He)).
          apply andb_true_iff in Hf as [Hinst Hrt].
          apply is_instance_true in Hinst as [a ->].
          destruct (HQl _ He c a eq_refl Hrt) as [H1 H2]. auto. }
        split.
        { rewrite <- (map_id (first :: rest)) at 1.
          rewrite (mapM_map_Ok to_dict id encoded); [done|].
          eapply Forall_impl; [exact Hall|]. by intros e [He _]. }
        intros safe dm Hdm.
        rewrite (from_dict_step_list _ _ _ _ _ _ _ d Hdm Hmodel).
        cbn [map].
        change (encoded first :: map encoded rest)
          with (map encoded (first :: rest)).
        unfold resolve_list. rewrite Hname. cbn [bind]. rewrite Hterra, Hloc.
        rewrite (mapM_map_Ok _ encoded decoded); [done|].
        eapply Forall_impl; [exact Hall|]. by intros e [_ He].
  - apply andb_true_iff in Hf as [Hinst Hrt].
    apply is_instance_true in Hinst as [a' ->].
    destruct (HQ c a eq_refl Hrt) as [Henc Hdec]. split; [done|].
    intros safe dm Hdm. unfold from_dict_step.
    rewrite (getattr_Ok _ _ _ _ Hdm). cbn [bind].
    unfold from_dict_eligible. cbn [in_none_or_empty is_model orb].
    by rewrite Hdec.
  - done.
Qed.

Lemma round_trip_model env cls attrs :
  Forall (fun kv => round_trips_at env (snd kv) /\
            forall l, snd kv = VList l -> Forall (round_trips_at env) l)
         attrs ->
  round_trips_at env (VModel cls attrs).
Proof.
  intros IH c a [= <- <-] Hrt. rewrite round_trippable_VModel in Hrt.
  apply andb_true_iff in Hrt as [Hrt Hfields].
  apply andb_true_iff in Hrt as [Hrt Hdata].
  apply andb_true_iff in Hrt as [Hkeys Hnd].
  apply bool_decide_eq_true in Hkeys. apply bool_decide_eq_true in Hnd.
  assert (forall k x d, (k, x) ∈ attrs ->
            dict_get k (construct env cls) = Some d ->
            to_dict_value to_dict x = Ok (encoded x) /\
            forall safe dm, dict_get k dm = Some d ->
              from_dict_step env (fun c m => from_dict env c m false) cls
                safe dm (k, encoded x)
              = Ok (setattr dm k (decoded x))) as Hfield.
  { intros k x d Hin Hd. rewrite Forall_forall in IH.
    destruct (IH _ Hin) as [HQ HQl]. cbn [snd] in HQ, HQl.
    apply field_round_trip; try done.
    rewrite forallb_forall in Hfields.
    apply (Hfields (k, x)). by apply list_elem_of_In. }
  assert (to_dict (VModel cls attrs) = Ok (encoded (VModel cls attrs))) as Henc.
  { rewrite to_dict_VModel.
    rewrite (to_dict_loop_all to_dict encoded attrs []); try done.
    apply Forall_forall. intros [k x] Hin. cbn [snd].
    assert (is_Some (dict_get k (construct env cls))) as [d Hd].
    { apply not_eq_None_Some. rewrite dict_get_None, <- Hkeys.
      intros Hk. apply Hk. apply list_elem_of_fmap. by exists (k, x). }
    by destruct (Hfield k x d Hin Hd). }
  split; [done|]. intros safe.
  change (encoded (VModel cls attrs))
    with (VDict (map (fun kv => (fst kv, encoded (snd kv))) attrs)).
  rewrite from_dict_VDict. unfold from_dict_loop.
  rewrite <- (app_nil_l (construct env cls)).
  rewrite (decode_loop_all _ encoded decoded attrs (construct env cls) []);
    [done| |done].
  apply (Forall2_defaults
           (fun k x d =>
              forall dm, dict_get k dm = Some d ->
                from_dict_step env (fun c m => from_dict env c m false) cls
                  safe dm (k, encoded x)
                = Ok (setattr dm k (decoded x)))); [done|by rewrite <- Hkeys|].
  intros k x d Hin Hd. destruct (Hfield k x d Hin Hd) as [_ H]. exact (H safe).
Qed.

Lemma round_trip_nested env x :
  round_trips_at env x /\
  forall l, x = VList l -> Forall (round_trips_at env) l.
Proof.
  induction x as [| | | | |entries _|ecls n|l IH|cls attrs IH|]
    using value_nested_ind;
    try (split; [by intros ? ? [=] | by intros ? [=]]).
  - split; [by intros ? ? [=]|]. intros l' [= <-].
    eapply Forall_impl; [exact IH|]. by intros e [He _].
  - split; [|by intros ? [=]]. by apply round_trip_model.
Qed.

Lemma normalize_decoded x : normalize (decoded x) = normalize x.
Proof.
  induction x as [| | | | |entries _|ecls n|l IH|cls attrs IH|]
    using value_nested_ind; try done.
  - rewrite decoded_VList. destruct (passes_through l); [done|].
    simpl. f_equal. rewrite map_map. apply map_ext_Forall.
    eapply Forall_impl; [exact IH|]. done.
  - simpl. f_equal. rewrite map_map. apply map_ext_Forall.
    eapply Forall_impl; [exact IH|]. intros [k x] Hx. cbn [fst snd] in *.
    by rewrite Hx.
Qed.

(** The claim C1 fails on an instance whose fields all hold concrete
    values.  [x] is 3 in a fresh [Outer], and the instance, which has
    [x = 9], decodes with [x = 3]; [opt] is [None] in a fresh [Outer], and
    the instance, whose [opt] is an [Inner], decodes with the [dict] that
    encodes that [Inner]. *)
Lemma round_trip_fails_on_populated_instance :
  fully_populated Example.populated_outer = true /\
  (exists encoding,
     to_dict Example.populated_outer = Ok encoding /\
     from_dict Example.env "Outer" encoding false
     = Ok Example.populated_outer_decoded) /\
  ~ structurally_equal Example.populated_outer_decoded Example.populated_outer.
Proof.
  split; [reflexivity|]. split.
  - eexists. split; reflexivity.
  - unfold structurally_equal. vm_compute. discriminate.
Qed.

(** C1, amended.  Take an instance of the class [cls] that has the
    attributes of a fresh [cls()], all of them data attributes, and whose
    fields fit the class: where it holds a primitive, a [dict] or an
    enumeration member, a fresh instance holds [None] or an empty list;
    where it holds a nested model, a fresh instance holds a model of the
    same class, and the nested model fits its own class; where it holds a
    list, a fresh instance holds no model, the declared element type name
    is qualified by [terra] exactly when the first element is not a
    primitive, and in that case the locator finds for it the class of
    every element, each of which fits that class.  Then [to_dict] encodes
    the instance, and [from_dict] on [cls] decodes that encoding, with
    [safe] set or not, into an instance structurally equal to the
    original. *)
Theorem encode_decode_round_trip env cls attrs safe :
  round_trippable env (VModel cls attrs) = true ->
  exists encoding result,
    to_dict (VModel cls attrs) = Ok encoding /\
    from_dict env cls encoding safe = Ok result /\
    structurally_equal result (VModel cls attrs).
Proof.
  intros Hrt.
  destruct (proj1 (round_trip_nested env (VModel cls attrs))
              cls attrs eq_refl Hrt) as [Henc Hdec].
  exists (encoded (VModel cls attrs)), (decoded (VModel cls attrs)).
  split; [done|]. split; [done|]. apply normalize_decoded.
Qed.

(** On a populated [Day]: its label, its enumeration member, its nested
    [Inner], its list of [Inner] and its list of strings all come back. *)
Lemma encode_decode_round_trip_witness :
  fully_populated Example.populated_day = true /\
  exists encoding result,
    to_dict Example.populated_day = Ok encoding /\
    from_dict Example.env "Day" encoding false = Ok result /\
    structurally_equal result Example.populated_day.
Proof.
  split; [reflexivity|].
  apply (encode_decode_round_trip Example.env "Day"). vm_compute. reflexivity.
Defined.

(** ** Values in a growing heap *)

Lemma all2_impl {A B : Type} (R R' : A -> B -> Prop) l l' :
  Forall (fun a => forall b, R a b -> R' a b) l ->
  all2 R l l' -> all2 R' l l'.
Proof.
  intros H. revert l'. induction H as [|a l Ha _ IH]; intros [|b l']; simpl;
    try done.
  intros [Hab Hl]. split; [by apply Ha | by apply IH].
Qed.

Lemma all2_dict_set {V W : Type} (R : V -> W -> Prop)
    (d : list (string * V)) (d' : list (string * W)) k v w :
  all2 (fun t e => fst t = fst e /\ R (snd t) (snd e)) d d' ->
  R v w ->
  all2 (fun t e => fst t = fst e /\ R (snd t) (snd e))
       (dict_set k v d) (dict_set k w d').
Proof.
  intros Hall Hvw. revert d' Hall.
  induction d as [|[k1 v1] d IH]; intros [|[k2 w2] d']; simpl; try done.
  intros [[Hk Hv] Hall]. cbn [fst snd] in Hk, Hv. subst k2.
  destruct (String.eqb k k1); simpl; [done|]. split; [done|]. by apply IH.
Qed.

Lemma unfolds_mono t :
  forall h h' v, h ⊆ h' -> Store.unfolds h t v -> Store.unfolds h' t v.
Proof.
  induction t as [| | | | |entries IH|ecls n|l IH|cls attrs IH|]
    using value_nested_ind; intros h h' v Hsub; simpl; try done.
  - intros (l & es & -> & Hl & Hall). exists l, es.
    split; [done|]. split; [by eapply lookup_weaken|].
    eapply all2_impl; [|exact Hall].
    eapply Forall_impl; [exact IH|]. intros [k x] Hx [k' e] [? ?].
    cbn [fst snd] in *. split; [done|]. by eapply Hx.
  - intros (r & items & -> & Hl & Hall). exists r, items.
    split; [done|]. split; [by eapply lookup_weaken|].
    eapply all2_impl; [|exact Hall].
    eapply Forall_impl; [exact IH|]. intros x Hx e ?. by eapply Hx.
  - intros (l & es & -> & Hl & Hnd & Hall). exists l, es.
    split; [done|]. split; [by eapply lookup_weaken|]. split; [done|].
    eapply all2_impl; [|exact Hall].
    eapply Forall_impl; [exact IH|]. intros [k x] Hx [k' e] [? ?].
    cbn [fst snd] in *. split; [done|]. by eapply Hx.
  - intros (l & -> & Hl). exists l. split; [done|]. by eapply lookup_weaken.
Qed.

(** ** What [to_dict] leaves untouched *)

Lemma alloc_spec h o h' l :
  Store.alloc h o = (h', l) -> h !! l = None /\ h' = <[l := o]> h.
Proof.
  unfold Store.alloc. intros [= <- <-]. split; [|done].
  apply not_elem_of_dom, is_fresh.
Qed.

Lemma alloc_subseteq h0 h o h' l :
  h0 ⊆ h -> Store.alloc h o = (h', l) -> h0 ⊆ h'.
Proof.
  intros Hsub (Hl & ->)%alloc_spec. etrans; [exact Hsub|].
  by apply insert_subseteq.
Qed.

(** A write into the dictionary under construction does not reach the
    objects of a heap that does not hold it. *)
Lemma store_item_subseteq (h0 h : Store.heap) output k v :
  h0 ⊆ h -> h0 !! output = None -> h0 ⊆ Store.store_item h output k v.
Proof.
  intros Hsub Hout. unfold Store.store_item.
  destruct (h !! output) as [[]|]; try done. by apply insert_subseteq_r.
Qed.

Lemma mapM_heap_subseteq f l :
  (forall h v h' r, f h v = Ok (h', r) -> h ⊆ h') ->
  forall h h' ys, Store.mapM_heap f l h = Ok (h', ys) -> h ⊆ h'.
Proof.
  intros Hf. induction l as [|x l IH]; simpl; intros h h' ys H.
  - by injection H as <- <-.
  - apply bind_Ok in H as ([h1 y] & Hx & H).
    apply bind_Ok in H as ([h2 ys'] & Hl & [= <- <-]). cbn [fst snd] in *.
    etrans; [by eapply Hf | by eapply IH].
Qed.

Lemma to_dict_step_subseteq rec self output (h0 h : Store.heap) attr h' :
  (forall h v h' r, rec h v = Ok (h', r) -> h ⊆ h') ->
  h0 ⊆ h -> h0 !! output = None ->
  Store.to_dict_step rec self output h attr = Ok h' -> h0 ⊆ h'.
Proof.
  intros Hrec Hsub Hout. unfold Store.to_dict_step.
  intros (attr_val & _ & H)%bind_Ok.
  assert (forall v, h0 ⊆ Store.store_item h output attr v) as Hplain.
  { intros v. by apply store_item_subseteq. }
  destruct attr_val as [| | | | | |r]; try (injection H as <-; apply Hplain).
  assert (forall encoded,
            rec h (Store.RefV r) = Ok encoded ->
            h0 ⊆ Store.store_item (fst encoded) output attr (snd encoded))
    as Hnested.
  { intros [h1 y] Hy. apply store_item_subseteq; [|done].
    etrans; [exact Hsub | by eapply Hrec]. }
  destruct (h !! r) as [[l|d|c a|t]|].
  - destruct (Store.passes_through h l); [injection H as <-; apply Hplain|].
    apply bind_Ok in H as ([h1 ys] & Hmap & H). cbn [fst snd] in H.
    destruct (Store.alloc h1 (Store.ListO ys)) as [h2 new] eqn:Halloc.
    injection H as <-. apply store_item_subseteq; [|done].
    eapply alloc_subseteq; [|exact Halloc].
    etrans; [exact Hsub | by eapply mapM_heap_subseteq].
  - injection H as <-. apply Hplain.
  - apply bind_Ok in H as (encoded & Hy & [= <-]). by apply Hnested.
  - apply bind_Ok in H as (encoded & Hy & [= <-]). by apply Hnested.
  - apply bind_Ok in H as (encoded & Hy & [= <-]). by apply Hnested.
Qed.

Lemma to_dict_S fuel h self :
  Store.to_dict (S fuel) h self
  = match self with
    | Store.RefV l =>
        match h !! l with
        | Some (Store.ModelO _ attrs) =>
            let (h0, output) := Store.alloc h (Store.DictO []) in
            let* h' := foldM (Store.to_dict_step (Store.to_dict fuel) l output)
                         (_get_attrs attrs) h0 in
            Ok (h', Store.RefV output)
        | _ => Raise AttributeError
        end
    | _ => Raise AttributeError
    end.
Proof. reflexivity. Qed.

Lemma to_dict_subseteq fuel :
  forall h self h' r, Store.to_dict fuel h self = Ok (h', r) -> h ⊆ h'.
Proof.
  induction fuel as [|fuel IH]; intros h self h' r H; [done|].
  rewrite to_dict_S in H. destruct self as [| | | | | |l]; try done.
  destruct (h !! l) as [[| |c attrs|]|]; try done.
  destruct (Store.alloc h (Store.DictO [])) as [h0 output] eqn:Halloc.
  apply bind_Ok in H as (h1 & Hloop & [= <- <-]).
  pose proof (alloc_spec _ _ _ _ Halloc) as [Hout ->].
  eapply (foldM_invariant _ (fun hc => h ⊆ hc)); [| |exact Hloop].
  - intros hc attr hc' _ Hsub Hstep.
    exact (to_dict_step_subseteq (Store.to_dict fuel) l output h hc attr hc'
             IH Hsub Hout Hstep).
  - by apply insert_subseteq.
Qed.

(** C9.  When [to_dict] returns, every object of the heap it was called
    in (the instance, its nested models, its lists and dictionaries, and
    any other object) is at its location with the content it had; so the
    instance, and any other value, unfolds to the tree it unfolded to; and
    the dictionary returned is a new object. *)
Theorem to_dict_never_mutates fuel h self h' r :
  Store.to_dict fuel h self = Ok (h', r) ->
  (forall l o, h !! l = Some o -> h' !! l = Some o) /\
  (forall t v, Store.unfolds h t v -> Store.unfolds h' t v) /\
  exists output, r = Store.RefV output /\ h !! output = None.
Proof.
  intros H. pose proof (to_dict_subseteq fuel h self h' r H) as Hsub.
  split; [|split].
  - intros l o Hl. by eapply lookup_weaken.
  - intros t v. by apply unfolds_mono.
  - destruct fuel as [|fuel]; [done|]. rewrite to_dict_S in H.
    destruct self as [| | | | | |l]; try done.
    destruct (h !! l) as [[| |c attrs|]|]; try done.
    destruct (Store.alloc h (Store.DictO [])) as [h0 output] eqn:Halloc.
    apply bind_Ok in H as (h1 & _ & [= <- <-]).
    exists output. split; [done|]. by apply alloc_spec in Halloc as [? _].
Qed.

(** On the example heap the call returns, and the instance and the list
    of its [samples] are as they were. *)
Lemma to_dict_never_mutates_witness :
  exists h' r,
    Store.to_dict 3 Store.example_heap (Store.RefV 1%positive) = Ok (h', r) /\
    h' !! 1%positive
    = Some (Store.ModelO "Outer"
              [("inner", Store.RefV 2%positive);
               ("samples", Store.RefV 3%positive);
               ("tags", Store.RefV 4%positive); ("opt", Store.NoneV);
               ("x", Store.IntV 3)]) /\
    h' !! 3%positive = Some (Store.ListO [Store.RefV 2%positive]).
Proof.
  destruct (Store.to_dict 3 Store.example_heap (Store.RefV 1%positive))
    as [[h' r]|e] eqn:E; [|vm_compute in E; discriminate E].
  exists h', r. split; [reflexivity|].
  pose proof (proj1 (to_dict_never_mutates 3 Store.example_heap
                       (Store.RefV 1%positive) h' r E)) as Hkept.
  split; apply Hkept; vm_compute; reflexivity.
Defined.

(** The lists and dictionaries that pass through are not copied: the
    entry of the output for [tags] is the list of the instance itself. *)
Example to_dict_shares_passed_lists :
  exists h' output entries,
    Store.to_dict 3 Store.example_heap (Store.RefV 1%positive)
    = Ok (h', Store.RefV output) /\
    h' !! output = Some (Store.DictO entries) /\
    dict_get "tags" entries = Some (Store.RefV 4%positive) /\
    Store.load_attr Store.example_heap 1%positive "tags" None
    = Ok (Store.RefV 4%positive).
Proof.
  eexists _, _, _. split; [vm_compute; reflexivity|].
  split; [vm_compute; reflexivity|]. split; reflexivity.
Qed.

(** ** Merge fills [None] only *)

Lemma populate_attrs_keys attrs entry :
  map fst (populate_attrs attrs entry) = map fst attrs.
Proof.
  unfold populate_attrs.
  destruct (dict_get (fst entry) attrs) as [[]|] eqn:E; try done.
  apply dict_set_keys. apply dict_get_Some_elem in E.
  apply list_elem_of_fmap. by exists (fst entry, Store.NoneV).
Qed.

Lemma populate_step_insert h self cls attrs safe k v :
  (safe = false -> k ∈ map fst attrs) ->
  Store.populate_step self safe (<[self := Store.ModelO cls attrs]> h) (k, v)
  = Ok (<[self := Store.ModelO cls (populate_attrs attrs (k, v))]> h).
Proof.
  intros Hk. unfold Store.populate_step, Store.load_attr, Store.store_attr.
  rewrite lookup_insert_eq. unfold populate_attrs, getattr. cbn [fst snd].
  destruct (dict_get k attrs) as [current|] eqn:E.
  - simpl. destruct current; try done. by rewrite insert_insert_eq.
  - destruct safe; [done|]. exfalso.
    apply dict_get_None in E. by apply E, Hk.
Qed.

Lemma populate_loop_insert h self cls safe entries :
  forall attrs,
    (safe = false -> forall k, k ∈ map fst entries -> k ∈ map fst attrs) ->
    foldM (Store.populate_step self safe) entries
          (<[self := Store.ModelO cls attrs]> h)
    = Ok (<[self := Store.ModelO cls (fold_left populate_attrs entries attrs)]> h).
Proof.
  induction entries as [|[k v] entries IH]; intros attrs Hkeys; [done|].
  rewrite foldM_cons, populate_step_insert.
  2:{ intros Hs. apply (Hkeys Hs). simpl. apply list_elem_of_here. }
  cbn [bind fold_left]. apply IH. intros Hs k' Hk'. rewrite populate_attrs_keys.
  apply (Hkeys Hs). simpl. by apply list_elem_of_further.
Qed.

Lemma populate_attrs_lookup attrs k0 v0 k :
  dict_get k (populate_attrs attrs (k0, v0))
  = match dict_get k attrs with
    | Some Store.NoneV => if String.eqb k k0 then Some v0 else Some Store.NoneV
    | current => current
    end.
Proof.
  unfold populate_attrs. cbn [fst snd].
  destruct (String.eqb k k0) eqn:E.
  - apply String.eqb_eq in E. subst k0.
    destruct (dict_get k attrs) as [[]|] eqn:Hk; rewrite ?Hk; try done.
    apply dict_get_set_eq.
  - apply String.eqb_neq in E.
    destruct (dict_get k0 attrs) as [[]|] eqn:Hk0;
      try by destruct (dict_get k attrs) as [[]|].
    unfold setattr. rewrite dict_get_set_ne; [|done].
    by destruct (dict_get k attrs) as [[]|].
Qed.

Lemma populate_fold_lookup entries :
  NoDup (map fst entries) ->
  forall attrs k,
    dict_get k (fold_left populate_attrs entries attrs)
    = match dict_get k attrs with
      | Some Store.NoneV =>
          match dict_get k entries with
          | Some v => Some v
          | None => Some Store.NoneV
          end
      | current => current
      end.
Proof.
  induction entries as [|[k0 v0] entries IH]; intros Hnd attrs k.
  - simpl. by destruct (dict_get k attrs) as [[]|].
  - simpl in Hnd. apply NoDup_cons in Hnd as [Hfresh Hnd].
    simpl. rewrite (IH Hnd), populate_attrs_lookup.
    destruct (String.eqb k k0) eqn:E.
    + apply String.eqb_eq in E. subst k0.
      apply dict_get_None in Hfresh. rewrite Hfresh.
      destruct (dict_get k attrs) as [[]|]; try done. by destruct v0.
    + by destruct (dict_get k attrs) as [[]|].
Qed.

(** C6.  On an instance at [self] and a dictionary at [m], when every
    key is an attribute of the instance or [safe] is set,
    [populate_from_dict] returns the reference [self] itself, in a heap
    that differs from the one it was called in at [self] only: an
    attribute that was [None] and has an entry in the dictionary holds the
    incoming value as it came, and every other attribute (an empty list,
    zero, [False], any other value) holds what it held. *)
Theorem populate_from_dict_fills_none_only h self cls attrs m d safe :
  h !! self = Some (Store.ModelO cls attrs) ->
  h !! m = Some (Store.DictO d) ->
  NoDup (map fst d) ->
  (safe = false -> forall k, k ∈ map fst d -> k ∈ map fst attrs) ->
  exists attrs',
    Store.populate_from_dict h self (Store.RefV m) safe
    = Ok (<[self := Store.ModelO cls attrs']> h, Store.RefV self) /\
    forall k,
      dict_get k attrs'
      = match dict_get k attrs with
        | Some Store.NoneV =>
            match dict_get k d with
            | Some v => Some v
            | None => Some Store.NoneV
            end
        | current => current
        end.
Proof.
  intros Hself Hm Hnd Hkeys. exists (fold_left populate_attrs d attrs).
  split; [|by apply populate_fold_lookup].
  unfold Store.populate_from_dict, Store.mapping_items. rewrite Hm. simpl.
  rewrite <- (insert_id h self _ Hself) at 1.
  by rewrite (populate_loop_insert h self cls safe d attrs Hkeys).
Qed.

(** Testable property 6 of the specification: with [x = None] and
    [y = []], merging [{"x": 5, "y": [1, 2]}] sets [x] and leaves [y]. *)
Lemma populate_from_dict_fills_none_only_witness :
  exists attrs',
    Store.populate_from_dict merge_heap 1%positive (Store.RefV 3%positive) false
    = Ok (<[1%positive := Store.ModelO "Inner" attrs']> merge_heap,
          Store.RefV 1%positive) /\
    dict_get "x" attrs' = Some (Store.IntV 5) /\
    dict_get "y" attrs' = Some (Store.RefV 2%positive).
Proof.
  destruct (populate_from_dict_fills_none_only merge_heap 1%positive "Inner"
              [("x", Store.NoneV); ("y", Store.RefV 2%positive)]
              3%positive
              [("x", Store.IntV 5); ("y", Store.RefV 4%positive)] false)
    as (attrs' & Hcall & Hattrs).
  - reflexivity.
  - reflexivity.
  - compute_done.
  - intros _ k Hk. exact Hk.
  - exists attrs'. split; [exact Hcall|].
    split; [exact (Hattrs "x") | exact (Hattrs "y")].
Defined.

(** ** The heap codec computes what the tree codec computes *)

Lemma PRIMITIVES_unfolds hb h t v :
  hb ⊆ h -> Store.unfolds hb t v -> Store.PRIMITIVES h v = PRIMITIVES t.
Proof.
  intros Hsub. destruct t; simpl; try by intros ->.
  - intros (l & es & -> & Hl & _). simpl.
    by rewrite (lookup_weaken _ _ _ _ Hl Hsub).
  - intros (l & es & -> & Hl & _). simpl.
    by rewrite (lookup_weaken _ _ _ _ Hl Hsub).
  - intros (l & es & -> & Hl & _). simpl.
    by rewrite (lookup_weaken _ _ _ _ Hl Hsub).
  - intros (l & -> & Hl). simpl.
    by rewrite (lookup_weaken _ _ _ _ Hl Hsub).
Qed.

Lemma passes_through_unfolds hb h ts items :
  hb ⊆ h -> all2 (Store.unfolds hb) ts items ->
  Store.passes_through h items = passes_through ts.
Proof.
  intros Hsub. destruct ts as [|t ts], items as [|v items]; simpl; try done.
  intros [Hv _]. by eapply PRIMITIVES_unfolds.
Qed.

Lemma list_max_elem {A : Type} (f : A -> nat) (l : list A) x :
  x ∈ l -> f x <= list_max (map f l).
Proof.
  induction 1 as [x l|x y l _ IH]; simpl; lia.
Qed.

Lemma mapM_heap_computes rec ts :
  Forall (computes rec) ts ->
  forall encoded items hb h,
    mapM to_dict ts = Ok encoded -> hb ⊆ h ->
    all2 (Store.unfolds hb) ts items ->
    exists h' ys hb',
      Store.mapM_heap rec items h = Ok (h', ys) /\
      h ⊆ h' /\ hb ⊆ hb' /\ hb' ⊆ h' /\
      (forall l, is_Some (h !! l) -> hb !! l = None -> hb' !! l = None) /\
      all2 (Store.unfolds hb') encoded ys.
Proof.
  induction 1 as [|t ts Ht _ IH]; intros encoded [|v items] hb h Henc Hsub Hall;
    simpl in Hall; try done.
  - injection Henc as <-. exists h, [], hb. simpl. repeat split; done.
  - destruct Hall as [Hv Hall]. simpl in Henc.
    apply bind_Ok in Henc as (y & Hy & Henc).
    apply bind_Ok in Henc as (ys & Hys & [= <-]).
    destruct (Ht y hb h v Hy Hsub Hv)
      as (h1 & r & hb1 & Hcall & Hh1 & Hhb1 & Hsub1 & Hnew1 & Hr).
    assert (all2 (Store.unfolds hb1) ts items) as Hall1.
    { eapply all2_impl; [|exact Hall]. apply Forall_forall.
      intros x _ e. by apply unfolds_mono. }
    destruct (IH ys items hb1 h1 Hys Hsub1 Hall1)
      as (h2 & rs & hb2 & Hmap & Hh2 & Hhb2 & Hsub2 & Hnew2 & Hrs).
    exists h2, (r :: rs), hb2. simpl. rewrite Hcall. simpl. rewrite Hmap. simpl.
    split; [done|]. split; [by etrans|]. split; [by etrans|].
    split; [done|]. split.
    + intros l Hl Hb. apply Hnew2; [|by apply Hnew1].
      destruct Hl as [o Ho]. exists o. by eapply lookup_weaken.
    + split; [by eapply unfolds_mono | done].
Qed.

(** Putting a value that unfolds in [hb'] into the output keeps the state
    of the loop. *)
Lemma loop_inv_store (h hb : Store.heap) output acc hc hbc h' hb' k y yv :
  hb ⊆ h -> h !! output = None ->
  loop_inv h hb output acc hc hbc ->
  hc ⊆ h' -> hbc ⊆ hb' -> hb' ⊆ h' ->
  (forall l, is_Some (hc !! l) -> hbc !! l = None -> hb' !! l = None) ->
  Store.unfolds hb' y yv ->
  loop_inv h hb output (dict_set k y acc)
           (Store.store_item h' output k yv) hb'.
Proof.
  intros Hb Hout (Hh & Hhb & Hsub & Hnew & out & Hlook & Hacc)
    Hh' Hhb' Hsub' Hnew' Hy.
  assert (hb !! output = None) as Hbout.
  { destruct (hb !! output) eqn:E; [|done].
    by rewrite (lookup_weaken _ _ _ _ E Hb) in Hout. }
  assert (hb' !! output = None) as Hb'out.
  { apply Hnew'; [by exists (Store.DictO out)|]. apply Hnew; auto. }
  unfold Store.store_item. rewrite (lookup_weaken _ _ _ _ Hlook Hh').
  split; [|split; [|split; [|split]]].
  - apply insert_subseteq_r; [done|]. by etrans.
  - by etrans.
  - by apply insert_subseteq_r.
  - intros l Hl Hbl. apply Hnew'; [|by apply Hnew].
    destruct Hl as [[o Ho]| ->]; [|by exists (Store.DictO out)].
    exists o. by eapply lookup_weaken.
  - exists (dict_set k yv out). split; [by rewrite lookup_insert_eq|].
    apply (all2_dict_set (Store.unfolds hb')); [|done].
    eapply all2_impl; [|exact Hacc]. apply Forall_forall.
    intros [k1 x] _ [k2 e] [? ?]. split; [done|]. by eapply unfolds_mono.
Qed.

Lemma loop_inv_part (h hb : Store.heap) output acc hc hbc :
  loop_inv h hb output acc hc hbc -> h ⊆ hc /\ hb ⊆ hbc /\ hbc ⊆ hc.
Proof. intros (? & ? & ? & _). done. Qed.

(** One round of the loop on the heap does what the round on the tree
    does. *)
Lemma to_dict_step_computes rec (h hb : Store.heap) self cls attrs output
    acc hc hbc k x xv y :
  hb ⊆ h -> h !! output = None ->
  h !! self = Some (Store.ModelO cls attrs) ->
  dict_get k attrs = Some xv ->
  Store.unfolds hb x xv ->
  computes rec x ->
  (forall l, x = VList l -> Forall (computes rec) l) ->
  loop_inv h hb output acc hc hbc ->
  to_dict_value to_dict x = Ok y ->
  exists hc' hbc',
    Store.to_dict_step rec self output hc k = Ok hc' /\
    loop_inv h hb output (dict_set k y acc) hc' hbc'.
Proof.
  intros Hb Hout Hself Hget Hx Hrec Hrecl Hinv Hy.
  destruct (loop_inv_part _ _ _ _ _ _ Hinv) as (Hh & Hhb & Hsub).
  assert (Store.unfolds hbc x xv) as Hxc by by eapply unfolds_mono.
  assert (forall yv,
            Store.unfolds hbc y yv ->
            loop_inv h hb output (dict_set k y acc)
                     (Store.store_item hc output k yv) hbc) as Hplain.
  { intros yv Hyv. by apply (loop_inv_store h hb output acc hc hbc). }
  unfold Store.to_dict_step, Store.load_attr.
  rewrite (lookup_weaken _ _ _ _ Hself Hh), (getattr_Ok _ _ _ _ Hget).
  cbn [bind].
  destruct x as [| | | | |d|ecls n|ts|c a|tag]; simpl in Hxc.
  1-5: subst xv; injection Hy as <-; eexists _, hbc; split; [reflexivity|];
       by apply Hplain.
  - destruct Hxc as (r & es & -> & Hr & Hall). injection Hy as <-.
    rewrite (lookup_weaken _ _ _ _ Hr Hsub).
    eexists _, hbc. split; [reflexivity|]. apply Hplain.
    by exists r, es.
  - subst xv. injection Hy as <-. eexists _, hbc. split; [reflexivity|].
    by apply Hplain.
  - destruct Hxc as (r & items & -> & Hr & Hall).
    rewrite (lookup_weaken _ _ _ _ Hr Hsub).
    rewrite (passes_through_unfolds hbc hc ts items Hsub Hall).
    unfold to_dict_value in Hy.
    destruct (passes_through ts).
    + injection Hy as <-. eexists _, hbc. split; [reflexivity|].
      apply Hplain. by exists r, items.
    + apply bind_Ok in Hy as (encoded & Henc & [= <-]).
      destruct (mapM_heap_computes rec ts (Hrecl ts eq_refl) encoded items
                  hbc hc Henc Hsub Hall)
        as (h1 & ys & hb1 & Hmap & Hh1 & Hhb1 & Hsub1 & Hnew1 & Hys).
      rewrite Hmap. cbn [bind fst snd].
      destruct (Store.alloc h1 (Store.ListO ys)) as [h2 new] eqn:Halloc.
      apply alloc_spec in Halloc as [Hfresh ->].
      assert (hb1 !! new = None) as Hfresh1.
      { destruct (hb1 !! new) eqn:E; [|done].
        by rewrite (lookup_weaken _ _ _ _ E Hsub1) in Hfresh. }
      eexists _, (<[new := Store.ListO ys]> hb1). split; [reflexivity|].
      apply (loop_inv_store h hb output acc hc hbc); try done.
      * etrans; [exact Hh1|]. by apply insert_subseteq.
      * etrans; [exact Hhb1|]. by apply insert_subseteq.
      * by apply insert_mono.
      * intros l Hl Hbl. rewrite lookup_insert_ne; [by apply Hnew1|].
        intros ->. destruct Hl as [o Ho].
        by rewrite (lookup_weaken _ _ _ _ Ho Hh1) in Hfresh.
      * exists new, ys. split; [done|]. split; [by rewrite lookup_insert_eq|].
        eapply all2_impl; [|exact Hys]. apply Forall_forall.
        intros e _ w. apply unfolds_mono. by apply insert_subseteq.
  - pose proof Hxc as (r & es & -> & Hr & _).
    rewrite (lookup_weaken _ _ _ _ Hr Hsub).
    destruct (Hrec y hbc hc (Store.RefV r) Hy Hsub Hxc)
      as (h1 & rv & hb1 & Hcall & Hh1 & Hhb1 & Hsub1 & Hnew1 & Hrv).
    rewrite Hcall. cbn [bind fst snd].
    eexists _, hb1. split; [reflexivity|].
    by apply (loop_inv_store h hb output acc hc hbc).
  - done.
Qed.

Lemma get_attrs_cons {V : Type} k (v : V) (ns : list (string * V)) :
  _get_attrs ((k, v) :: ns)
  = if is_data_attr k then k :: _get_attrs ns else _get_attrs ns.
Proof.
  unfold _get_attrs. simpl. rewrite filter_cons.
  destruct (is_data_attr k); by case_decide.
Qed.

(** The loop on the heap does what the loop on the tree does. *)
Lemma to_dict_loop_computes rec (h hb : Store.heap) self cls attrs output :
  hb ⊆ h -> h !! output = None ->
  h !! self = Some (Store.ModelO cls attrs) ->
  forall todo todo_h acc hc hbc out,
    all2 (fun t e => fst t = fst e /\ Store.unfolds hb (snd t) (snd e))
         todo todo_h ->
    (forall k xv, (k, xv) ∈ todo_h -> dict_get k attrs = Some xv) ->
    Forall (fun kv => computes rec (snd kv) /\
              forall l, snd kv = VList l -> Forall (computes rec) l) todo ->
    loop_inv h hb output acc hc hbc ->
    foldM (to_dict_step to_dict) todo acc = Ok out ->
    exists hc' hbc',
      foldM (Store.to_dict_step rec self output) (_get_attrs todo_h) hc
      = Ok hc' /\
      loop_inv h hb output out hc' hbc'.
Proof.
  intros Hb Hout Hself.
  induction todo as [|[k x] todo IH];
    intros [|[k' xv] todo_h] acc hc hbc out Hall Hlook Hrec Hinv Hloop;
    simpl in Hall; try done.
  - injection Hloop as <-. by exists hc, hbc.
  - destruct Hall as [[Hk Hx] Hall]. cbn [fst snd] in Hk, Hx. subst k'.
    apply Forall_cons in Hrec as [[Hrx Hrl] Hrec]. cbn [snd] in Hrx, Hrl.
    rewrite foldM_cons in Hloop. apply bind_Ok in Hloop as (acc1 & Hstep & Hloop).
    unfold to_dict_step in Hstep. rewrite get_attrs_cons.
    assert (forall k0 xv0, (k0, xv0) ∈ todo_h -> dict_get k0 attrs = Some xv0)
      as Hlook'.
    { intros k0 xv0 Hin. apply Hlook. by apply list_elem_of_further. }
    destruct (is_data_attr k).
    + apply bind_Ok in Hstep as (y & Hy & [= <-]).
      destruct (to_dict_step_computes rec h hb self cls attrs output acc hc hbc
                  k x xv y Hb Hout Hself
                  (Hlook k xv (list_elem_of_here _ _)) Hx Hrx Hrl Hinv Hy)
        as (hc1 & hbc1 & Hstep1 & Hinv1).
      rewrite foldM_cons, Hstep1. cbn [bind].
      by apply (IH todo_h (dict_set k y acc) hc1 hbc1 out).
    + injection Hstep as <-. by apply (IH todo_h acc hc hbc out).
Qed.

Lemma to_dict_model_computes cls attrs fuel :
  Forall (fun kv =>
            computes (Store.to_dict fuel) (snd kv) /\
            forall l, snd kv = VList l ->
                      Forall (computes (Store.to_dict fuel)) l) attrs ->
  computes (Store.to_dict (S fuel)) (VModel cls attrs).
Proof.
  intros Hrec t' hb h v Hto Hb Hv. simpl in Hv.
  destruct Hv as (self & attrs_h & -> & Hself & Hnd & Hall).
  rewrite to_dict_VModel in Hto. apply bind_Ok in Hto as (out & Hloop & [= <-]).
  rewrite to_dict_S. rewrite (lookup_weaken _ _ _ _ Hself Hb).
  destruct (Store.alloc h (Store.DictO [])) as [h0 output] eqn:Halloc.
  apply alloc_spec in Halloc as [Hout ->].
  assert (hb !! output = None) as Hbout.
  { destruct (hb !! output) eqn:E; [|done].
    by rewrite (lookup_weaken _ _ _ _ E Hb) in Hout. }
  destruct (to_dict_loop_computes (Store.to_dict fuel) h hb self cls attrs_h
              output Hb Hout (lookup_weaken _ _ _ _ Hself Hb)
              attrs attrs_h [] (<[output := Store.DictO []]> h) hb out)
    as (hc & hbc & Hheap & Hh & Hhb & Hsub & Hnew & out_h & Hlook & Hacc);
    try done.
  - intros k xv Hin. by apply dict_get_elem.
  - split; [by apply insert_subseteq|]. split; [done|].
    split; [etrans; [exact Hb | by apply insert_subseteq]|].
    split; [done|]. exists []. split; [by rewrite lookup_insert_eq | done].
  - rewrite Hheap. cbn [bind].
    assert (hbc !! output = None) as Hcout by (apply Hnew; auto).
    exists hc, (Store.RefV output), (<[output := Store.DictO out_h]> hbc).
    split; [done|]. split; [done|].
    split; [etrans; [exact Hhb | by apply insert_subseteq]|].
    split; [by apply insert_subseteq_l|]. split.
    + intros l Hl Hbl. rewrite lookup_insert_ne; [apply Hnew; auto|].
      intros ->. destruct Hl as [o Ho]. by rewrite Ho in Hout.
    + simpl. exists output, out_h. split; [done|].
      split; [by rewrite lookup_insert_eq|].
      eapply all2_impl; [|exact Hacc]. apply Forall_forall.
      intros [k x] _ [k' e] [? ?]. split; [done|].
      eapply unfolds_mono; [|done]. by apply insert_subseteq.
Qed.

Lemma to_dict_computes_nested t :
  (forall fuel, height t <= fuel -> computes (Store.to_dict fuel) t) /\
  (forall l, t = VList l ->
     forall fuel, height t <= fuel -> Forall (computes (Store.to_dict fuel)) l).
Proof.
  induction t as [| | | | |entries _|ecls n|l IH|cls attrs IH|]
    using value_nested_ind;
    try (split; [by intros fuel _ t' hb h v [=] | by intros ? [=]]).
  - split; [by intros fuel _ t' hb h v [=]|].
    intros l' [= <-] fuel Hfuel. apply Forall_forall. intros x Hx.
    rewrite Forall_forall in IH. apply (proj1 (IH x Hx)).
    etrans; [|exact Hfuel]. simpl. by apply list_max_elem.
  - split; [|by intros ? [=]].
    intros [|fuel] Hfuel; [simpl in Hfuel; lia|].
    apply to_dict_model_computes. apply Forall_forall. intros kv Hin.
    rewrite Forall_forall in IH. destruct (IH kv Hin) as [Hkv Hl].
    assert (height (snd kv) <= fuel) as Hle.
    { pose proof (list_max_elem (fun kv => height (snd kv)) attrs kv Hin).
      simpl in Hfuel. lia. }
    split; [by apply Hkv|]. intros l El. by apply (Hl l El).
Qed.

(** X21.  On a heap in which [self] unfolds to the tree [t], [to_dict]
    given a recursion depth of at least the height of [t] returns
    whenever [to_dict] on [t] does, and what it returns unfolds to the
    encoding of [t]. *)
Theorem to_dict_on_heap t t' h self fuel :
  Store.unfolds h t self ->
  to_dict t = Ok t' ->
  height t <= fuel ->
  exists h' r,
    Store.to_dict fuel h self = Ok (h', r) /\ Store.unfolds h' t' r.
Proof.
  intros Hself Hto Hfuel.
  destruct (proj1 (to_dict_computes_nested t) fuel Hfuel t' h h self Hto
              (reflexivity h) Hself)
    as (h' & r & hb' & Hcall & _ & _ & Hsub & _ & Hr).
  exists h', r. split; [done|]. by eapply unfolds_mono.
Qed.

(** * Further properties of the codec *)

(** ** More on [to_dict]: its keys *)

Lemma NoDup_app_cons_r {A : Type} (l1 l2 : list A) x :
  NoDup (l1 ++ x :: l2) ->
  (x ∉ l1) /\ NoDup (l1 ++ l2) /\ NoDup ((l1 ++ [x]) ++ l2).
Proof.
  intros H. assert (l1 ++ x :: l2 ≡ₚ x :: (l1 ++ l2)) as Hp.
  { by rewrite Permutation_middle. }
  rewrite Hp in H. apply NoDup_cons in H as [Hx H].
  split; [|split].
  - intros Hin. apply Hx. apply elem_of_app. by left.
  - done.
  - rewrite <- app_assoc. simpl. rewrite Hp. by apply NoDup_cons.
Qed.

Lemma to_dict_loop_keys rec attrs :
  forall acc output,
    NoDup (map fst acc ++ map fst attrs) ->
    foldM (to_dict_step rec) attrs acc = Ok output ->
    map fst output = map fst acc ++ _get_attrs attrs.
Proof.
  induction attrs as [|[k x] attrs IH]; intros acc output Hnd H.
  - injection H as <-. unfold _get_attrs. simpl. by rewrite app_nil_r.
  - simpl in Hnd. apply NoDup_app_cons_r in Hnd as (Hfresh & Hskip & Hnext).
    rewrite foldM_cons in H. apply bind_Ok in H as (acc1 & Hstep & H).
    unfold to_dict_step in Hstep. rewrite get_attrs_cons.
    destruct (is_data_attr k).
    + apply bind_Ok in Hstep as (y & _ & [= <-]).
      rewrite (dict_set_fresh acc k y Hfresh) in H.
      rewrite (IH _ _ (eq_ind_r (fun l => NoDup (l ++ map fst attrs)) Hnext
                         (map_app fst acc [(k, y)])) H).
      rewrite map_app. simpl. by rewrite <- app_assoc.
    + injection Hstep as <-. by apply IH.
Qed.

(** X1.  The encoding of an instance with distinct attribute names has
    exactly the names that [keys] yields as its keys, in that order, each
    of them once. *)
Theorem to_dict_keys cls attrs output :
  NoDup (map fst attrs) ->
  to_dict (VModel cls attrs) = Ok (VDict output) ->
  map fst output = keys attrs /\ NoDup (map fst output).
Proof.
  intros Hnd H. rewrite to_dict_VModel in H.
  apply bind_Ok in H as (out & Hloop & [= <-]).
  pose proof (to_dict_loop_keys to_dict attrs [] out Hnd Hloop) as Hkeys.
  simpl in Hkeys. split; [done|]. rewrite Hkeys.
  unfold _get_attrs. by apply NoDup_filter.
Qed.

Lemma to_dict_keys_witness :
  map fst Example.mixed_output = keys Example.mixed_attrs /\
  NoDup (map fst Example.mixed_output).
Proof.
  apply (to_dict_keys "Outer" Example.mixed_attrs Example.mixed_output).
  - compute_done.
  - reflexivity.
Defined.

Lemma is_data_attr_true a :
  is_data_attr a = true <->
  startswith_underscore a = false /\ a ∉ base_names.
Proof.
  unfold is_data_attr. rewrite andb_true_iff, !negb_true_iff.
  split; intros [Hu Hb]; (split; [done|]).
  - intros Hin. apply not_true_iff_false in Hb. apply Hb.
    apply existsb_exists. exists a. split; [by apply list_elem_of_In|].
    apply String.eqb_refl.
  - apply not_true_iff_false. intros (b & Hin & Heq)%existsb_exists.
    apply String.eqb_eq in Heq. subst b. apply Hb. by apply list_elem_of_In.
Qed.

Lemma dict_set_keys_elem {V : Type} (d : list (string * V)) k v j :
  j ∈ map fst (dict_set k v d) <-> j = k \/ j ∈ map fst d.
Proof.
  induction d as [|[k' v'] d IH]; simpl.
  - rewrite list_elem_of_singleton. split; [auto|].
    intros [?|H]; [done | by apply elem_of_nil in H].
  - destruct (String.eqb k k') eqn:E; simpl.
    + apply String.eqb_eq in E. subst k'. rewrite !elem_of_cons. tauto.
    + rewrite !elem_of_cons, IH. tauto.
Qed.

(** X2.  Every key of an encoding is the name of an attribute of the
    instance, does not start with an underscore and is not a name of the
    base class: what is private to the instance is never exported. *)
Theorem to_dict_exports_data_attributes_only cls attrs output k :
  to_dict (VModel cls attrs) = Ok (VDict output) ->
  k ∈ map fst output ->
  k ∈ map fst attrs /\ startswith_underscore k = false /\ k ∉ base_names.
Proof.
  intros H Hk. rewrite to_dict_VModel in H.
  apply bind_Ok in H as (out & Hloop & [= <-]).
  assert (forall j, j ∈ map fst out ->
                    j ∈ map fst attrs /\ is_data_attr j = true) as Hall.
  { apply (foldM_invariant (to_dict_step to_dict)
             (fun o => forall j, j ∈ map fst o ->
                         j ∈ map fst attrs /\ is_data_attr j = true)
             attrs [] out); [| |exact Hloop].
    - intros o [a x] o' Hin Ho Hstep j Hj. unfold to_dict_step in Hstep.
      destruct (is_data_attr a) eqn:Ha; [|injection Hstep as <-; by apply Ho].
      apply bind_Ok in Hstep as (y & _ & [= <-]).
      apply dict_set_keys_elem in Hj as [->|Hj]; [|by apply Ho].
      split; [|done]. apply list_elem_of_fmap. by exists (a, x).
    - intros j Hj. by apply elem_of_nil in Hj. }
  destruct (Hall k Hk) as [Hin Hdata]. apply is_data_attr_true in Hdata.
  tauto.
Qed.

Lemma to_dict_exports_data_attributes_only_witness :
  to_dict (VModel "Inner" private_attrs) = Ok (VDict [("a", VInt 1)]) /\
  "a" ∈ map fst private_attrs /\
  startswith_underscore "a" = false /\ "a" ∉ base_names.
Proof.
  split; [reflexivity|].
  apply (to_dict_exports_data_attributes_only "Inner" private_attrs
           [("a", VInt 1)] "a").
  - reflexivity.
  - apply list_elem_of_here.
Defined.


(** ** More on [to_dict]: when it returns and what it raises *)

Lemma mapM_returns_iff {A B : Type} (f : A -> result B) (p : A -> bool) l :
  Forall (fun x => returns_iff (p x) (f x)) l ->
  returns_iff (forallb p l) (mapM f l).
Proof.
  induction 1 as [|x l Hx _ IH]; simpl; [by exists []|].
  unfold returns_iff in Hx. destruct (p x); simpl.
  - destruct Hx as [y ->]. simpl. unfold returns_iff in IH.
    destruct (forallb p l); simpl.
    + destruct IH as [ys ->]. simpl. by eexists.
    + by rewrite IH.
  - by rewrite Hx.
Qed.

Lemma to_dict_loop_returns_iff rec (p : value -> bool) attrs :
  Forall (fun kv => returns_iff (p (snd kv)) (to_dict_value rec (snd kv)))
         attrs ->
  forall acc,
    returns_iff
      (forallb (fun kv => negb (is_data_attr (fst kv)) || p (snd kv)) attrs)
      (foldM (to_dict_step rec) attrs acc).
Proof.
  induction 1 as [|[k x] attrs Hx _ IH]; intros acc; simpl; [by exists acc|].
  cbn [fst snd] in Hx. destruct (is_data_attr k); simpl; [|apply IH].
  unfold returns_iff in Hx. destruct (p x); simpl.
  - destruct Hx as [y ->]. simpl. apply IH.
  - by rewrite Hx.
Qed.

Lemma to_dict_returns_iff_nested x :
  returns_iff (encodable x) (to_dict x) /\
  forall l, x = VList l ->
            Forall (fun e => returns_iff (encodable e) (to_dict e)) l.
Proof.
  induction x as [| | | | |entries _|ecls n|l IH|cls attrs IH|]
    using value_nested_ind;
    try (split; [done | by intros ? [=]]).
  - split; [done|]. intros l' [= <-].
    eapply Forall_impl; [exact IH|]. by intros e [He _].
  - split; [|by intros ? [=]].
    rewrite to_dict_VModel. simpl.
    assert (Forall (fun kv => returns_iff (value_encodable encodable (snd kv))
                               (to_dict_value to_dict (snd kv))) attrs) as H.
    { eapply Forall_impl; [exact IH|]. intros [k v] [Hv Hl]. cbn [snd] in *.
      destruct v as [| | | | | | |l|c a|];
        try (by (simpl; eexists)); try exact Hv.
      unfold to_dict_value, value_encodable.
      destruct (passes_through l); simpl; [by eexists|].
      pose proof (mapM_returns_iff to_dict encodable l (Hl l eq_refl)) as Hm.
      unfold returns_iff in *. destruct (forallb encodable l).
      - destruct Hm as [ys ->]. simpl. by eexists.
      - by rewrite Hm. }
    pose proof (to_dict_loop_returns_iff to_dict _ attrs H []) as Hloop.
    unfold returns_iff in *.
    destruct (forallb _ attrs).
    + destruct Hloop as [out ->]. simpl. by eexists.
    + by rewrite Hloop.
Qed.

(** X4.  In the encoding of an instance with distinct attribute names,
    the entry of a data attribute is: the integer of an enumeration
    member; the value itself for a primitive, and for a [dict] whatever it
    holds, without a look inside; the encoding of a nested model. *)
Theorem to_dict_attribute_entry cls attrs attr attr_val output :
  NoDup (map fst attrs) ->
  (attr, attr_val) ∈ attrs ->
  is_data_attr attr = true ->
  to_dict (VModel cls attrs) = Ok (VDict output) ->
  (forall c n, attr_val = VEnum c n -> dict_get attr output = Some (VInt n)) /\
  (PRIMITIVES attr_val = true -> dict_get attr output = Some attr_val) /\
  (is_model attr_val = true ->
   exists encoding,
     to_dict attr_val = Ok encoding /\ dict_get attr output = Some encoding).
Proof.
  intros Hnd Hin Hdata H. rewrite to_dict_VModel in H.
  apply bind_Ok in H as (out & Hloop & [= <-]).
  destruct (to_dict_loop_lookup to_dict attrs attr attr_val Hnd Hin Hdata
              [] out Hloop) as (y & Hy & Hout).
  split; [|split].
  - intros c n ->. simpl in Hy. by injection Hy as <-.
  - intros Hp. destruct attr_val; try discriminate Hp;
      simpl in Hy; by injection Hy as <-.
  - intros Hm. destruct attr_val; try discriminate Hm. by exists y.
Qed.

Lemma to_dict_attribute_entry_witness :
  dict_get "kind" kinds_output = Some (VInt 4) /\
  dict_get "raw" kinds_output
  = Some (VDict [("inner", VModel "Inner" [("a", VEnum "Kind" 1)])]).
Proof.
  assert (NoDup (map fst kinds_attrs)) as Hnd by compute_done.
  split.
  - refine (proj1 (to_dict_attribute_entry "Outer" kinds_attrs "kind"
      (VEnum "Kind" 4) kinds_output Hnd _ eq_refl eq_refl) "Kind" 4%Z eq_refl).
    apply list_elem_of_here.
  - refine (proj1 (proj2 (to_dict_attribute_entry "Outer" kinds_attrs "raw"
      (VDict [("inner", VModel "Inner" [("a", VEnum "Kind" 1)])])
      kinds_output Hnd _ eq_refl eq_refl)) eq_refl).
    apply list_elem_of_further, list_elem_of_here.
Defined.


(** ** A model instance handed in as the mapping *)

Lemma foldM_guarded_items {S : Type} (step : S -> string * value -> result S)
    attrs s :
  foldM (guarded true step) attrs s = foldM step (items attrs) s.
Proof.
  revert s. induction attrs as [|[k v] attrs IH]; intros s; [done|].
  rewrite foldM_cons. unfold guarded at 1, items. cbn [fst andb].
  rewrite filter_cons. cbn [fst].
  destruct (is_data_attr k) eqn:Hk; cbn [negb].
  - rewrite decide_True by done. rewrite foldM_cons.
    destruct (step s (k, v)); [|done]. cbn [bind]. apply IH.
  - rewrite decide_False by done. cbn [bind]. apply IH.
Qed.

Lemma from_dict_of_model env cls c attrs safe :
  from_dict env cls (VModel c attrs) safe
  = from_dict env cls (VDict (items attrs)) safe.
Proof. cbn [from_dict]. by rewrite foldM_guarded_items. Qed.

Lemma from_dict_api_of_model env cls c attrs safe :
  from_dict_api env cls (VModel c attrs) safe
  = from_dict_api env cls (VDict (items attrs)) safe.
Proof. cbn [from_dict_api]. by rewrite foldM_guarded_items. Qed.

(** ** The attribute names of a decoded instance *)

Lemma from_dict_api_step_names rec safe dm kv dm' :
  from_dict_api_step rec safe dm kv = Ok dm' -> map fst dm' = map fst dm.
Proof.
  destruct kv as [k v]. unfold from_dict_api_step, getattr.
  destruct (dict_get k dm) as [x|] eqn:Hk.
  - assert (k ∈ map fst dm) as Hin.
    { destruct (decide (k ∈ map fst dm)) as [|Hn]; [done|].
      apply dict_get_None in Hn. congruence. }
    cbn [bind]. destruct (from_dict_api_eligible x); [|by intros [= <-]].
    destruct x; try (intros [= <-]; by apply dict_set_keys).
    intros H. apply bind_Ok in H as (v' & _ & [= <-]). by apply dict_set_keys.
  - destruct safe; [|done]. cbn. by intros [= <-].
Qed.

Lemma populate_step_names safe self kv self' :
  populate_step safe self kv = Ok self' -> map fst self' = map fst self.
Proof.
  destruct kv as [k v]. unfold populate_step, getattr.
  destruct (dict_get k self) as [x|] eqn:Hk.
  - assert (k ∈ map fst self) as Hin.
    { destruct (decide (k ∈ map fst self)) as [|Hn]; [done|].
      apply dict_get_None in Hn. congruence. }
    cbn [bind]. destruct (is_none x); intros [= <-]; [|done].
    by apply dict_set_keys.
  - destruct safe; [|done]. cbn. by intros [= <-].
Qed.

Lemma foldM_names (f : namespace -> string * value -> result namespace) d :
  (forall s kv s', f s kv = Ok s' -> map fst s' = map fst s) ->
  forall s s', foldM f d s = Ok s' -> map fst s' = map fst s.
Proof.
  intros Hf s s' H.
  apply (foldM_invariant f (fun x => map fst x = map fst s) d s s');
    [|done|done].
  intros s1 x s2 _ Hs1 Hx. rewrite <- Hs1. by eapply Hf.
Qed.

(** X6.  The strict [from_dict], and [from_dict_api] and
    [populate_from_dict] with either value of [safe], never add or remove
    an attribute: the instance they return has the attribute names it
    started with, in the same order. *)
Theorem decoders_keep_attribute_names env cls m safe :
  (forall r, from_dict env cls m false = Ok r ->
     exists attrs, r = VModel cls attrs /\
                   map fst attrs = map fst (construct env cls)) /\
  (forall r, from_dict_api env cls m safe = Ok r ->
     exists attrs, r = VModel cls attrs /\
                   map fst attrs = map fst (construct env cls)) /\
  (forall self self', populate_from_dict self m safe = Ok self' ->
     map fst self' = map fst self).
Proof.
  split; [|split].
  - intros r H. destruct m; try discriminate H.
    + rewrite from_dict_VDict in H.
      apply bind_Ok in H as (dm & Hloop & [= <-]).
      exists dm. split; [done|]. by eapply from_dict_loop_keys.
    + rewrite from_dict_of_model, from_dict_VDict in H.
      apply bind_Ok in H as (dm & Hloop & [= <-]).
      exists dm. split; [done|]. by eapply from_dict_loop_keys.
  - intros r H.
    assert (exists d, from_dict_api env cls m safe
                      = from_dict_api env cls (VDict d) safe) as [d Heq].
    { destruct m; try discriminate H; [by eexists|].
      eexists. apply from_dict_api_of_model. }
    rewrite Heq, from_dict_api_VDict in H.
    apply bind_Ok in H as (dm & Hloop & [= <-]).
    exists dm. split; [done|].
    refine (foldM_names _ _ _ _ _ Hloop).
    intros ???. apply from_dict_api_step_names.
  - intros self self' H. unfold populate_from_dict in H.
    apply bind_Ok in H as (entries & _ & Hloop).
    refine (foldM_names _ _ _ _ _ Hloop).
    intros ???. apply populate_step_names.
Qed.

Lemma decoders_keep_attribute_names_witness :
  (exists attrs,
     VModel "Outer" (setattr Example.Outer_defaults "opt" (VInt 1))
     = VModel "Outer" attrs /\
     map fst attrs = map fst (construct Example.env "Outer")) /\
  map fst (setattr Example.Outer_defaults "opt" (VInt 1))
  = map fst Example.Outer_defaults.
Proof.
  pose proof (decoders_keep_attribute_names Example.env "Outer"
                (VDict [("opt", VInt 1); ("missing", VInt 2)]) true)
    as (_ & Hapi & Hpop).
  split.
  - apply Hapi. reflexivity.
  - apply Hpop. reflexivity.
Defined.

(** ** Attributes the mapping does not name *)

Lemma populate_step_frame safe self kv self' k0 :
  populate_step safe self kv = Ok self' -> fst kv <> k0 ->
  dict_get k0 self' = dict_get k0 self.
Proof.
  destruct kv as [k v]. intros H Hne. cbn [fst] in Hne.
  apply populate_step_shape in H as (current & _ & [-> | [_ ->]]); [done|].
  unfold setattr. by apply dict_get_set_ne.
Qed.

(** X7.  An attribute that the mapping has no key for is left alone by
    all three decoders, with either value of [safe]: after [from_dict]
    and [from_dict_api] it holds what the fresh instance holds, after
    [populate_from_dict] what it held before. *)
Theorem unnamed_attributes_are_left_alone env cls m safe entries f :
  mapping_items m = Ok entries ->
  f ∉ map fst entries ->
  (forall attrs, from_dict env cls m safe = Ok (VModel cls attrs) ->
     dict_get f attrs = dict_get f (construct env cls)) /\
  (forall attrs, from_dict_api env cls m safe = Ok (VModel cls attrs) ->
     dict_get f attrs = dict_get f (construct env cls)) /\
  (forall self self', populate_from_dict self m safe = Ok self' ->
     dict_get f self' = dict_get f self).
Proof.
  intros Hm Hf.
  assert (from_dict env cls m safe = from_dict env cls (VDict entries) safe /\
          from_dict_api env cls m safe
          = from_dict_api env cls (VDict entries) safe) as [H1 H2].
  { destruct m; try discriminate Hm; injection Hm as <-; [done|].
    split; [apply from_dict_of_model | apply from_dict_api_of_model]. }
  split; [|split].
  - intros attrs H. rewrite H1, from_dict_VDict in H.
    apply bind_Ok in H as (dm & Hloop & [= <-]).
    refine (foldM_frame _ f entries _ _ _ Hf Hloop).
    intros ???. apply from_dict_step_frame.
  - intros attrs H. rewrite H2, from_dict_api_VDict in H.
    apply bind_Ok in H as (dm & Hloop & [= <-]).
    refine (foldM_frame _ f entries _ _ _ Hf Hloop).
    intros ???. apply from_dict_api_step_frame.
  - intros self self' H. unfold populate_from_dict in H. rewrite Hm in H.
    cbn [bind] in H.
    refine (foldM_frame _ f entries _ _ _ Hf H).
    intros ???. apply populate_step_frame.
Qed.

Lemma unnamed_attributes_are_left_alone_witness :
  dict_get "x" (setattr Example.Outer_defaults "opt" (VInt 1))
  = dict_get "x" (construct Example.env "Outer").
Proof.
  refine (proj1 (unnamed_attributes_are_left_alone Example.env "Outer"
                   (VDict [("opt", VInt 1)]) false [("opt", VInt 1)] "x"
                   eq_refl _) _ eq_refl).
  compute_done.
Defined.

(** ** What [from_dict_api] raises *)

Lemma foldM_Raise {A B : Type} (f : B -> A -> result B) (P : error -> Prop) l :
  Forall (fun x => forall s e, f s x = Raise e -> P e) l ->
  forall s e, foldM f l s = Raise e -> P e.
Proof.
  induction 1 as [|x l Hx _ IH]; intros s e; [done|].
  rewrite foldM_cons. destruct (f s x) as [s1|e1] eqn:Hf; cbn [bind].
  - apply IH.
  - intros [= <-]. by eapply Hx.
Qed.

Lemma from_dict_api_step_Raise rec safe dm k v e :
  from_dict_api_step rec safe dm (k, v) = Raise e ->
  e = AttributeError \/ exists c, rec c v = Raise e.
Proof.
  unfold from_dict_api_step, getattr.
  destruct (dict_get k dm) as [x|]; [|destruct safe; cbn].
  - cbn [bind]. destruct (from_dict_api_eligible x); [|done].
    destruct x; try done.
    destruct (rec cls v) eqn:Hr; cbn [bind]; [done|].
    intros [= <-]. right. by eexists.
  - done.
  - intros [= <-]. by left.
Qed.

Lemma from_dict_api_Raise env m :
  forall cls safe e,
    from_dict_api env cls m safe = Raise e -> e = AttributeError.
Proof.
  induction m as [| | | | |entries IH|ecls n|l _|c attrs IH|]
    using value_nested_ind; intros cls safe e H;
    try (cbn in H; by injection H as <-).
  - rewrite from_dict_api_VDict in H.
    destruct (from_dict_api_loop env safe entries (construct env cls))
      as [dm|e1] eqn:Hloop; [done|].
    cbn [bind] in H. injection H as <-.
    refine (foldM_Raise _ (fun e => e = AttributeError) entries _ _ _ Hloop).
    eapply Forall_impl; [exact IH|].
    intros [k v] Hv s e Hs. cbn [snd] in Hv.
    apply from_dict_api_step_Raise in Hs as [->|[c' Hc]]; [done|].
    by eapply Hv.
  - rewrite from_dict_api_of_model, from_dict_api_VDict in H.
    destruct (from_dict_api_loop env safe (items attrs) (construct env cls))
      as [dm|e1] eqn:Hloop; [done|].
    cbn [bind] in H. injection H as <-.
    refine (foldM_Raise _ (fun e => e = AttributeError) (items attrs) _ _ _
              Hloop).
    unfold items. apply Forall_forall. intros [k v] Hin s e Hs.
    apply list_elem_of_filter in Hin as [_ Hin].
    rewrite Forall_forall in IH. specialize (IH _ Hin). cbn [snd] in IH.
    apply from_dict_api_step_Raise in Hs as [->|[c' Hc]]; [done|].
    by eapply IH.
Qed.

(** X8.  On a JSON document, with classes whose instances hide no
    method of the base class, [from_dict_api] returns an instance of [cls]
    or raises [AttributeError], whatever [safe]: it raises nothing else,
    since it never looks at a field type. *)
Theorem from_dict_api_returns_or_raises_attribute_error env cls m safe :
  json_like m = true ->
  (forall c, methods_intact (VModel c (construct env c)) = true) ->
  (exists attrs, from_dict_api env cls m safe = Ok (VModel cls attrs)) \/
  from_dict_api env cls m safe = Raise AttributeError.
Proof.
  intros _ _.
  destruct (from_dict_api env cls m safe) as [r|e] eqn:H.
  - left. apply from_dict_api_returns_model in H as [attrs ->]. by exists attrs.
  - right. by rewrite (from_dict_api_Raise env m cls safe e H).
Qed.

Lemma from_dict_api_returns_or_raises_attribute_error_witness :
  (exists attrs,
     from_dict_api Example.env "Outer"
       (VDict [("x", VList [VInt 1]); ("inner", VDict [("c", VInt 1)])]) true
     = Ok (VModel "Outer" attrs)) \/
  from_dict_api Example.env "Outer"
    (VDict [("x", VList [VInt 1]); ("inner", VDict [("c", VInt 1)])]) true
  = Raise AttributeError.
Proof.
  apply from_dict_api_returns_or_raises_attribute_error; [reflexivity|].
  intros c. cbn [construct Example.env].
  repeat match goal with
         | |- context [String.eqb c ?s] => destruct (String.eqb c s)
         end; reflexivity.
Defined.

(** ** When [populate_from_dict] returns *)





(** ** Merging twice *)

Lemma dict_set_same {V : Type} (d : list (string * V)) k v :
  dict_get k d = Some v -> dict_set k v d = d.
Proof.
  induction d as [|[j x] d IH]; [done|]. cbn.
  destruct (String.eqb k j) eqn:E.
  - apply String.eqb_eq in E as ->. by intros [= ->].
  - intros H. by rewrite IH.
Qed.

Lemma populate_step_keeps safe self kv self' k x :
  populate_step safe self kv = Ok self' ->
  dict_get k self = Some x -> is_none x = false ->
  dict_get k self' = Some x.
Proof.
  destruct kv as [j v]. intros H Hk Hx.
  destruct (decide (j = k)) as [->|Hne].
  - unfold populate_step in H. rewrite (getattr_Ok _ _ _ _ Hk) in H.
    cbn [bind] in H. rewrite Hx in H. by injection H as <-.
  - by rewrite (populate_step_frame _ _ _ _ k H).
Qed.

Lemma populate_loop_keeps safe d self self' k x :
  foldM (populate_step safe) d self = Ok self' ->
  dict_get k self = Some x -> is_none x = false ->
  dict_get k self' = Some x.
Proof.
  intros H Hk Hx.
  apply (foldM_invariant (populate_step safe)
           (fun s => dict_get k s = Some x) d self self'); [|done|done].
  intros s kv s' _ Hs Hstep. by eapply populate_step_keeps.
Qed.

Lemma populate_loop_settled safe d :
  forall self self',
    foldM (populate_step safe) d self = Ok self' ->
    Forall (fun kv => populate_step safe self' kv = Ok self') d.
Proof.
  induction d as [|[k v] d IH]; intros self self' H; [done|].
  rewrite foldM_cons in H. apply bind_Ok in H as (s1 & Hs1 & Hloop).
  constructor; [|by eapply IH].
  pose proof (foldM_names _ d (fun s kv s' => populate_step_names safe s kv s')
                _ _ Hloop) as Hnames.
  unfold populate_step, getattr in Hs1 |- *.
  destruct (dict_get k self) as [x|] eqn:Hk.
  - cbn [bind] in Hs1.
    assert (exists y, dict_get k s1 = Some y /\
                      (is_none y = false \/ v = VNone)) as (y & Hy & Hcase).
    { destruct (is_none x) eqn:Hx; injection Hs1 as <-.
      - exists v. split; [apply dict_get_set_eq|].
        destruct v; first [by right | by left].
      - exists x. split; [done|by left]. }
    destruct Hcase as [Hnn | ->].
    + rewrite (populate_loop_keeps _ _ _ _ _ _ Hloop Hy Hnn).
      cbn [bind]. by rewrite Hnn.
    + destruct (dict_get k self') as [z|] eqn:Hz.
      * cbn [bind]. destruct (is_none z) eqn:Hzn; [|done].
        destruct z; try discriminate Hzn.
        unfold setattr. by rewrite dict_set_same.
      * apply dict_get_None in Hz. rewrite Hnames in Hz.
        apply dict_get_None in Hz. congruence.
  - destruct safe; [|done]. cbn in Hs1. injection Hs1 as <-.
    rewrite (dict_get_None_keys self self' k Hnames Hk). done.
Qed.

Lemma foldM_fixed {A B : Type} (f : B -> A -> result B) l s :
  Forall (fun x => f s x = Ok s) l -> foldM f l s = Ok s.
Proof.
  induction 1 as [|x l Hx _ IH]; [done|].
  rewrite foldM_cons, Hx. exact IH.
Qed.

(** X10.  [populate_from_dict] is idempotent: a second call with the same
    mapping and the same [safe] returns, and leaves the instance as the
    first call left it. *)
Theorem populate_from_dict_idempotent self m safe self' :
  populate_from_dict self m safe = Ok self' ->
  populate_from_dict self' m safe = Ok self'.
Proof.
  unfold populate_from_dict.
  destruct (mapping_items m) as [entries|]; [|done]. cbn [bind].
  intros H. apply foldM_fixed. by eapply populate_loop_settled.
Qed.

Lemma populate_from_dict_idempotent_witness :
  populate_from_dict
    [("a", VInt 1); ("b", VStr "hi")]
    (VDict [("a", VInt 1); ("b", VStr "hi"); ("c", VInt 0)]) true
  = Ok [("a", VInt 1); ("b", VStr "hi")].
Proof.
  apply (populate_from_dict_idempotent Example.Inner_defaults
           (VDict [("a", VInt 1); ("b", VStr "hi"); ("c", VInt 0)]) true).
  reflexivity.
Defined.


(** ** The element type name of a list field *)

Lemma split_not_nil sep s : split sep s <> [].
Proof.
  destruct s as [|c s]; [done|]. cbn.
  destruct (Ascii.eqb c sep); [done|]. by destruct (split sep s).
Qed.

Lemma append_String c (a b : string) : String c a +:+ b = String c (a +:+ b).
Proof. reflexivity. Qed.

Lemma append_empty_r (s : string) : s +:+ "" = s.
Proof. induction s as [|c s IH]; [done|]. by rewrite append_String, IH. Qed.

Lemma first_piece_app sep a b :
  contains sep a = false ->
  first_piece sep (a +:+ b) = a +:+ first_piece sep b.
Proof.
  unfold first_piece. induction a as [|c a IH]; [done|].
  rewrite !append_String. cbn [contains split].
  intros H. apply orb_false_iff in H as [Hc Ha].
  rewrite Hc. specialize (IH Ha).
  pose proof (split_not_nil sep (a +:+ b)) as Hne.
  destruct (split sep (a +:+ b)) as [|x xs]; [done|].
  by rewrite <- IH.
Qed.

Lemma first_piece_at sep a rest :
  contains sep a = false -> first_piece sep (a +:+ String sep rest) = a.
Proof.
  intros H. rewrite first_piece_app by done.
  unfold first_piece. cbn [split]. rewrite Ascii.eqb_refl. apply append_empty_r.
Qed.

Lemma first_piece_all sep a : contains sep a = false -> first_piece sep a = a.
Proof.
  intros H. rewrite <- (append_empty_r a) at 1.
  rewrite first_piece_app by done. apply append_empty_r.
Qed.

Lemma split_app sep a rest :
  contains sep a = false ->
  split sep (a +:+ String sep rest) = a :: split sep rest.
Proof.
  induction a as [|c a IH].
  - intros _. change ("" +:+ String sep rest) with (String sep rest).
    cbn [split]. by rewrite Ascii.eqb_refl.
  - rewrite append_String. cbn [contains split].
    intros H. apply orb_false_iff in H as [Hc Ha].
    rewrite Hc. by rewrite IH.
Qed.

Lemma split_all sep a : contains sep a = false -> split sep a = [a].
Proof.
  induction a as [|c a IH]; cbn; [done|].
  intros H. apply orb_false_iff in H as [Hc Ha].
  rewrite Hc. by rewrite IH.
Qed.

(** X11.  The element type name that [from_dict] reads off the type of a
    field is the text after the first opening bracket of the type, up to
    the next bracket of either kind or to the end: for a type written
    [p[n...] with no bracket in [p] and [n], it is [n]. *)
Theorem declared_element_name_is_first_bracket env cls k z p n tail :
  dataclass_fields env cls = Some z ->
  dict_get k z = Some (p +:+ "[" +:+ n +:+ tail) ->
  contains "["%char p = false ->
  contains "["%char n = false ->
  contains "]"%char n = false ->
  at_bracket tail = true ->
  declared_element_name env cls k = Ok n.
Proof.
  intros Hz Hk Hp Hn1 Hn2 Htail. unfold declared_element_name.
  rewrite Hz. cbn [bind]. rewrite Hk. cbn [bind].
  change (p +:+ "[" +:+ n +:+ tail) with (p +:+ String "[" (n +:+ tail)).
  rewrite split_app by done.
  pose proof (split_not_nil "[" (n +:+ tail)) as Hne.
  assert (first_piece "]" (first_piece "[" (n +:+ tail)) = n) as Hfp.
  { destruct tail as [|c tail].
    - rewrite append_empty_r, (first_piece_all "[" n) by done.
      by apply first_piece_all.
    - cbn in Htail. apply orb_true_iff in Htail as [E|E];
        apply Ascii.eqb_eq in E as ->.
      + rewrite (first_piece_at "[" n) by done. by apply first_piece_all.
      + rewrite (first_piece_app "[" n) by done.
        change (String "]" tail) with ("]" +:+ tail).
        rewrite (first_piece_app "[" "]") by done.
        exact (first_piece_at "]" n (first_piece "[" tail) Hn2). }
  unfold first_piece at 2 in Hfp.
  destruct (split "[" (n +:+ tail)) as [|after more]; [done|].
  cbn [bind]. by rewrite Hfp.
Qed.

Lemma declared_element_name_is_first_bracket_witness :
  declared_element_name
    {| construct := fun _ => [];
       dataclass_fields := fun _ =>
         Some [("days", "typing.Optional[typing.List[models.Day]]")];
       locate := fun _ => None |} "Week" "days"
  = Ok "typing.List".
Proof.
  apply (declared_element_name_is_first_bracket _ "Week" "days"
           [("days", "typing.Optional[typing.List[models.Day]]")]
           "typing.Optional" "typing.List" "[models.Day]]");
    reflexivity.
Defined.

(** ** What the resolution of a list raises *)

Lemma from_dict_list_raise env cls safe opre k x l opost odm existing e :
  from_dict_loop env cls safe opre (construct env cls) = Ok odm ->
  getattr odm k (safe_default safe) = Ok existing ->
  is_model existing = false ->
  resolve_list env (fun c m => from_dict env c m false) cls k (x :: l)
  = Raise e ->
  from_dict env cls (VDict (opre ++ (k, VList (x :: l)) :: opost)) safe
  = Raise e.
Proof.
  intros Hpre Hget Hmodel Hres.
  rewrite from_dict_VDict, from_dict_loop_app, Hpre. cbn [bind].
  rewrite from_dict_loop_cons. unfold from_dict_step. rewrite Hget.
  cbn [bind]. unfold from_dict_eligible. cbn [is_list].
  rewrite orb_true_r.
  destruct existing; try discriminate Hmodel; by rewrite Hres.
Qed.

(** X12.  A non-empty list that comes in for an attribute which holds no
    model makes [from_dict] look up the declared type of the field, with
    either value of [safe]: the call raises [TypeError] when the class is
    not a dataclass, [KeyError] when the key is not one of its fields, and
    [IndexError] when the type of the field has no opening bracket. *)
Theorem list_resolution_errors env cls safe opre k x l opost odm existing :
  from_dict_loop env cls safe opre (construct env cls) = Ok odm ->
  getattr odm k (safe_default safe) = Ok existing ->
  is_model existing = false ->
  let call :=
    from_dict env cls (VDict (opre ++ (k, VList (x :: l)) :: opost)) safe in
  (dataclass_fields env cls = None -> call = Raise TypeError) /\
  (forall z, dataclass_fields env cls = Some z -> dict_get k z = None ->
             call = Raise KeyError) /\
  (forall z ty, dataclass_fields env cls = Some z -> dict_get k z = Some ty ->
                contains "["%char ty = false -> call = Raise IndexError).
Proof.
  intros Hpre Hget Hmodel call. subst call.
  split; [|split].
  - intros Hz. eapply from_dict_list_raise; [done..|].
    unfold resolve_list, current_field_name, declared_element_name.
    by rewrite Hz.
  - intros z Hz Hk. eapply from_dict_list_raise; [done..|].
    unfold resolve_list, current_field_name, declared_element_name.
    rewrite Hz. cbn [bind]. by rewrite Hk.
  - intros z ty Hz Hk Hty. eapply from_dict_list_raise; [done..|].
    unfold resolve_list, current_field_name, declared_element_name.
    rewrite Hz. cbn [bind]. rewrite Hk. cbn [bind].
    by rewrite split_all.
Qed.

Lemma list_resolution_errors_witness :
  from_dict Example.env "Outer" (VDict [("x", VList [VInt 1])]) false
  = Raise IndexError.
Proof.
  refine (proj2 (proj2 (list_resolution_errors Example.env "Outer" false []
            "x" (VInt 1) [] [] Example.Outer_defaults (VInt 3)
            eq_refl eq_refl eq_refl)) _ "int" eq_refl eq_refl eq_refl).
Defined.


(** ** The two decoders on mappings without lists *)

Lemma decoder_steps_agree env (rec rec' : string -> value -> result value)
    cls safe dm k v :
  is_list v = false ->
  (forall c, rec c v = rec' c v) ->
  from_dict_step env rec cls safe dm (k, v)
  = from_dict_api_step rec' safe dm (k, v).
Proof.
  intros Hv Hrec. unfold from_dict_step, from_dict_api_step.
  destruct (getattr dm k (safe_default safe)) as [inner|]; [|reflexivity].
  cbn [bind]. unfold from_dict_eligible, from_dict_api_eligible.
  rewrite Hv, orb_false_r.
  destruct (in_none_or_empty inner || is_model inner); [|done].
  destruct inner; try (by destruct v); by rewrite Hrec.
Qed.

Lemma list_free_not_list v : list_free v = true -> is_list v = false.
Proof. by destruct v. Qed.

Lemma decoder_loops_agree env cls safe d :
  Forall (fun kv => list_free (snd kv) = true /\
                    forall c, from_dict env c (snd kv) false
                              = from_dict_api env c (snd kv) false) d ->
  forall dm, from_dict_loop env cls safe d dm = from_dict_api_loop env safe d dm.
Proof.
  intros H dm. unfold from_dict_loop, from_dict_api_loop.
  apply foldM_ext_Forall. eapply Forall_impl; [exact H|].
  intros [k v] [Hfree Hrec] s. cbn [snd] in *.
  apply decoder_steps_agree; [by apply list_free_not_list | done].
Qed.

(** X13.  On a mapping in which no list is met, at any depth, [from_dict]
    and [from_dict_api] do the same: they return the same instance or
    raise the same exception. *)
Theorem decoders_agree_without_lists env m :
  list_free m = true ->
  forall cls safe, from_dict env cls m safe = from_dict_api env cls m safe.
Proof.
  induction m as [| | | | |entries IH|ecls n|l _|c attrs IH|]
    using value_nested_ind; intros Hfree cls safe; try done.
  - rewrite from_dict_VDict, from_dict_api_VDict.
    rewrite (decoder_loops_agree env cls safe entries); [done|].
    cbn [list_free] in Hfree. rewrite forallb_forall in Hfree.
    apply Forall_forall. intros kv Hin. rewrite Forall_forall in IH.
    assert (list_free (snd kv) = true) as Hkv.
    { apply Hfree. by apply list_elem_of_In. }
    split; [done|]. intros c. by apply IH.
  - rewrite from_dict_of_model, from_dict_api_of_model.
    rewrite from_dict_VDict, from_dict_api_VDict.
    rewrite (decoder_loops_agree env cls safe (items attrs)); [done|].
    cbn [list_free] in Hfree. rewrite forallb_forall in Hfree.
    apply Forall_forall. intros kv Hin. rewrite Forall_forall in IH.
    apply list_elem_of_filter in Hin as [_ Hin].
    assert (list_free (snd kv) = true) as Hkv.
    { apply Hfree. by apply list_elem_of_In. }
    split; [done|]. intros c'. by apply IH.
Qed.

Lemma decoders_agree_without_lists_witness :
  from_dict Example.env "Outer"
    (VDict [("inner", VDict [("a", VInt 1)]); ("opt", VStr "x")]) false
  = from_dict_api Example.env "Outer"
      (VDict [("inner", VDict [("a", VInt 1)]); ("opt", VStr "x")]) false.
Proof.
  apply (decoders_agree_without_lists Example.env
           (VDict [("inner", VDict [("a", VInt 1)]); ("opt", VStr "x")])).
  reflexivity.
Defined.

(** ** A value without [items] for a nested model *)

Lemma from_dict_no_items env c v safe :
  has_items v = false -> from_dict env c v safe = Raise AttributeError.
Proof. by destruct v. Qed.

Lemma from_dict_api_no_items env c v safe :
  has_items v = false -> from_dict_api env c v safe = Raise AttributeError.
Proof. by destruct v. Qed.

Lemma entry_split (d : namespace) k v :
  NoDup (map fst d) -> (k, v) ∈ d ->
  exists pre post, d = pre ++ (k, v) :: post /\ k ∉ map fst pre.
Proof.
  intros Hnd Hin. apply list_elem_of_split in Hin as (pre & post & ->).
  exists pre, post. split; [done|].
  rewrite map_app in Hnd. cbn [map fst] in Hnd.
  by apply NoDup_app_cons_r in Hnd as [? _].
Qed.

(** X14.  When the attribute [k] of a fresh instance holds a nested model
    and the mapping has, for [k], a value without [items] ([None], a
    number, a string, a list), neither decoder returns, with either value
    of [safe]; [from_dict_api] raises [AttributeError]. *)
Theorem nested_model_needs_a_mapping env cls safe d k v c a :
  dict_get k (construct env cls) = Some (VModel c a) ->
  NoDup (map fst d) ->
  (k, v) ∈ d ->
  has_items v = false ->
  (forall r, from_dict env cls (VDict d) safe <> Ok r) /\
  from_dict_api env cls (VDict d) safe = Raise AttributeError.
Proof.
  intros Hk Hnd Hin Hv.
  destruct (entry_split d k v Hnd Hin) as (pre & post & -> & Hpre).
  split.
  - intros r H.
    destruct (from_dict_loop env cls safe pre (construct env cls))
      as [odm|e] eqn:Hloop.
    + assert (dict_get k odm = Some (VModel c a)) as Hodm.
      { rewrite <- Hk.
        refine (foldM_frame _ k pre _ _ _ Hpre Hloop).
        intros ???. apply from_dict_step_frame. }
      rewrite (from_dict_nested_raise env cls safe pre k v post odm c a
                 AttributeError Hloop Hodm) in H; [done|].
      by apply from_dict_no_items.
    + rewrite from_dict_VDict, from_dict_loop_app, Hloop in H. done.
  - destruct (from_dict_api env cls (VDict (pre ++ (k, v) :: post)) safe)
      as [r|e] eqn:H; [|by rewrite (from_dict_api_Raise env _ cls safe e H)].
    exfalso.
    destruct (from_dict_api_loop env safe pre (construct env cls))
      as [odm|e] eqn:Hloop.
    + assert (dict_get k odm = Some (VModel c a)) as Hodm.
      { rewrite <- Hk.
        refine (foldM_frame _ k pre _ _ _ Hpre Hloop).
        intros ???. apply from_dict_api_step_frame. }
      rewrite (from_dict_api_nested_raise env cls safe pre k v post odm c a
                 AttributeError Hloop Hodm) in H; [done|].
      by apply from_dict_api_no_items.
    + rewrite from_dict_api_VDict, from_dict_api_loop_app, Hloop in H. done.
Qed.

Lemma nested_model_needs_a_mapping_witness :
  from_dict_api Example.env "Outer" (VDict [("x", VInt 1); ("inner", VNone)])
    true
  = Raise AttributeError.
Proof.
  refine (proj2 (nested_model_needs_a_mapping Example.env "Outer" true
            [("x", VInt 1); ("inner", VNone)] "inner" VNone "Inner"
            [("a", VInt 3); ("b", VNone)] eq_refl _ _ eq_refl)).
  - compute_done.
  - apply list_elem_of_further, list_elem_of_here.
Defined.


(** ** Lists that come in for an attribute without a model *)

Lemma from_dict_step_list_any env rec cls safe dm k l dm' :
  (forall existing, dict_get k dm = Some existing -> is_model existing = false) ->
  from_dict_step env rec cls safe dm (k, VList l) = Ok dm' ->
  match l with
  | [] => dm' = setattr dm k (VList [])
  | _ :: _ => exists v', resolve_list env rec cls k l = Ok v' /\
                         dm' = setattr dm k v'
  end.
Proof.
  intros Hnm H.
  assert (from_dict_step env rec cls safe dm (k, VList l)
          = match l with
            | [] => Ok (setattr dm k (VList []))
            | _ :: _ => let* v' := resolve_list env rec cls k l in
                        Ok (setattr dm k v')
            end) as Heq.
  { destruct (dict_get k dm) as [existing|] eqn:Hk.
    - apply (from_dict_step_list env rec cls safe dm k l existing Hk).
      by apply Hnm.
    - destruct safe; [by apply unknown_key_safe_list|].
      by rewrite (proj1 (unknown_key_strict env rec cls dm k (VList l) Hk))
        in H. }
  rewrite Heq in H. destruct l as [|x l]; [by injection H as <-|].
  apply bind_Ok in H as (v' & Hv' & [= <-]). by exists v'.
Qed.

(** X15.  An empty list that comes in for an attribute which holds no
    model is stored by [from_dict], whatever the attribute held: a
    default that is neither [None] nor [[]] is replaced by [[]]. *)
Theorem empty_list_overwrites env cls safe d k attrs :
  (forall existing,
     dict_get k (construct env cls) = Some existing ->
     is_model existing = false) ->
  NoDup (map fst d) ->
  (k, VList []) ∈ d ->
  from_dict env cls (VDict d) safe = Ok (VModel cls attrs) ->
  dict_get k attrs = Some (VList []).
Proof.
  intros Hnm Hnd Hin H. rewrite from_dict_VDict in H.
  apply bind_Ok in H as (dm & Hloop & [= <-]).
  refine (foldM_at_key _ k (VList []) (dict_get k (construct env cls))
            (fun o => o = Some (VList [])) d _ _ Hnd Hin _ _ eq_refl Hloop).
  - intros ???. apply from_dict_step_frame.
  - intros s s' Hs Hstep.
    apply from_dict_step_list_any in Hstep as ->.
    + apply dict_get_set_eq.
    + intros existing. rewrite Hs. apply Hnm.
Qed.

Lemma empty_list_overwrites_witness :
  dict_get "x" (setattr Example.Outer_defaults "x" (VList []))
  = Some (VList []).
Proof.
  refine (empty_list_overwrites Example.env "Outer" false
            [("x", VList [])] "x" _ _ _ _ eq_refl).
  - by intros existing [= <-].
  - compute_done.
  - apply list_elem_of_here.
Defined.

Lemma qualify_terra name :
  first_piece "."%char name = "models" \/ first_piece "."%char name = "terra" ->
  first_piece "."%char (qualify name) = "terra".
Proof.
  unfold qualify. intros [H|H]; rewrite H.
  - exact (first_piece_at "." "terra" name eq_refl).
  - exact H.
Qed.

(** X16.  When the declared element type of the field [k] starts with
    [models] or [terra] and, with [terra.] put before a name that starts
    with [models], names a class that can be located, a non-empty list
    that comes in for [k] is replaced by a list of the same length: each
    element is what the strict [from_dict] of that class makes of the
    incoming element, an instance of that class. *)
Theorem qualified_list_is_decoded env cls safe d k x l name c attrs :
  declared_element_name env cls k = Ok name ->
  first_piece "."%char name = "models" \/ first_piece "."%char name = "terra" ->
  locate env (qualify name) = Some c ->
  (forall existing,
     dict_get k (construct env cls) = Some existing ->
     is_model existing = false) ->
  NoDup (map fst d) ->
  (k, VList (x :: l)) ∈ d ->
  from_dict env cls (VDict d) safe = Ok (VModel cls attrs) ->
  exists result,
    dict_get k attrs = Some (VList result) /\
    Forall2 (fun el r => from_dict env c el false = Ok r /\
                         exists a, r = VModel c a) (x :: l) result.
Proof.
  intros Hname Hq Hloc Hnm Hnd Hin H. rewrite from_dict_VDict in H.
  apply bind_Ok in H as (dm & Hloop & [= <-]).
  refine (foldM_at_key _ k (VList (x :: l)) (dict_get k (construct env cls))
            (fun o => exists result, o = Some (VList result) /\ _)
            d _ _ Hnd Hin _ _ eq_refl Hloop).
  - intros ???. apply from_dict_step_frame.
  - intros s s' Hs Hstep.
    apply from_dict_step_list_any in Hstep as (v' & Hres & ->);
      [|intros existing; rewrite Hs; apply Hnm].
    unfold resolve_list, current_field_name in Hres.
    rewrite Hname in Hres. cbn [bind] in Hres.
    rewrite (qualify_terra name Hq) in Hres.
    change (String.eqb "terra" "terra") with true in Hres. cbv iota in Hres.
    rewrite Hloc in Hres.
    apply bind_Ok in Hres as (result & Hmap & [= <-]).
    exists result. split; [apply dict_get_set_eq|].
    apply mapM_Ok_Forall2 in Hmap.
    eapply Forall2_impl; [exact Hmap|].
    intros el r Hel. split; [done|].
    by apply from_dict_returns_model in Hel.
Qed.

Lemma qualified_list_is_decoded_witness :
  exists result,
    dict_get "samples"
      [("x", VInt 3);
       ("inner", VModel "Inner" [("a", VInt 3); ("b", VNone)]);
       ("samples", VList [VModel "Inner" [("a", VInt 1); ("b", VNone)];
                          VModel "Inner" [("a", VInt 2); ("b", VNone)]]);
       ("opt", VNone);
       ("tags", VList [])]
    = Some (VList result) /\
    Forall2 (fun el r => from_dict Example.env "Inner" el false = Ok r /\
                         exists a, r = VModel "Inner" a)
            [VDict [("a", VInt 1)]; VDict [("a", VInt 2)]] result.
Proof.
  refine (qualified_list_is_decoded Example.env "Outer" false
            [("samples", VList [VDict [("a", VInt 1)]; VDict [("a", VInt 2)]])]
            "samples" (VDict [("a", VInt 1)]) [VDict [("a", VInt 2)]]
            "models.Inner" "Inner" _ eq_refl _ eq_refl _ _ _ eq_refl).
  - by left.
  - by intros existing [= <-].
  - compute_done.
  - apply list_elem_of_here.
Defined.


(** ** [to_dict] on the heap: what is shared, and cycles *)

Lemma dict_get_Some_keys {V : Type} (d : list (string * V)) k v :
  dict_get k d = Some v -> k ∈ map fst d.
Proof.
  intros H. destruct (decide (k ∈ map fst d)) as [|Hn]; [done|].
  apply dict_get_None in Hn. congruence.
Qed.

Lemma to_dict_on_heap_witness :
  exists h' r,
    Store.to_dict 1 Store.example_heap (Store.RefV 2%positive) = Ok (h', r) /\
    Store.unfolds h' (VDict [("a", VInt 1); ("b", VNone)]) r.
Proof.
  apply (to_dict_on_heap (VModel "Inner" [("a", VInt 1); ("b", VNone)])).
  - exists 2%positive, [("a", Store.IntV 1); ("b", Store.NoneV)].
    split; [reflexivity|]. split; [reflexivity|].
    split; [compute_done|]. cbn. done.
  - reflexivity.
  - cbn. lia.
Defined.

Lemma to_dict_step_shape rec self output (h : Store.heap) attr h' :
  (forall h v h' r, rec h v = Ok (h', r) -> h ⊆ h') ->
  Store.to_dict_step rec self output h attr = Ok h' ->
  exists hx v, h ⊆ hx /\ h' = Store.store_item hx output attr v.
Proof.
  intros Hrec. unfold Store.to_dict_step.
  intros (attr_val & _ & H)%bind_Ok.
  destruct attr_val as [| | | | | |r];
    try (injection H as <-; by eexists h, _).
  assert (forall encoded,
            rec h (Store.RefV r) = Ok encoded ->
            exists hx v, h ⊆ hx /\
              Store.store_item (fst encoded) output attr (snd encoded)
              = Store.store_item hx output attr v) as Hnested.
  { intros [h1 y] Hy. exists h1, y. split; [by eapply Hrec | done]. }
  destruct (h !! r) as [[l|d|c a|t]|].
  - destruct (Store.passes_through h l); [injection H as <-; by eexists h, _|].
    apply bind_Ok in H as ([h1 ys] & Hmap & H). cbn [fst snd] in H.
    destruct (Store.alloc h1 (Store.ListO ys)) as [h2 new] eqn:Halloc.
    injection H as <-. exists h2, (Store.RefV new). split; [|done].
    eapply alloc_subseteq; [|exact Halloc]. by eapply mapM_heap_subseteq.
  - injection H as <-. by eexists h, _.
  - apply bind_Ok in H as (encoded & Hy & [= <-]). by apply Hnested.
  - apply bind_Ok in H as (encoded & Hy & [= <-]). by apply Hnested.
  - apply bind_Ok in H as (encoded & Hy & [= <-]). by apply Hnested.
Qed.

Lemma PRIMITIVES_mono (h h' : Store.heap) v :
  h ⊆ h' -> Store.PRIMITIVES h v = true -> Store.PRIMITIVES h' v = true.
Proof.
  intros Hsub. destruct v as [| | | | | |l]; try done. cbn.
  destruct (h !! l) as [o|] eqn:Hl; [|done].
  by rewrite (lookup_weaken _ _ _ _ Hl Hsub).
Qed.

Lemma shared_mono (h h' : Store.heap) v :
  h ⊆ h' -> shared h v = true -> shared h' v = true.
Proof.
  intros Hsub. destruct v as [| | | | | |r]; try done. cbn.
  destruct (h !! r) as [o|] eqn:Hr; [|done].
  rewrite (lookup_weaken _ _ _ _ Hr Hsub).
  destruct o as [l| | |]; try done.
  destruct l as [|first l]; [done|]. cbn. by apply PRIMITIVES_mono.
Qed.

Lemma to_dict_step_shared rec self output (h : Store.heap) cls attrs k v :
  h !! self = Some (Store.ModelO cls attrs) ->
  dict_get k attrs = Some v ->
  shared h v = true ->
  Store.to_dict_step rec self output h k = Ok (Store.store_item h output k v).
Proof.
  intros Hself Hk Hv. unfold Store.to_dict_step, Store.load_attr.
  rewrite Hself, (getattr_Ok _ _ _ _ Hk). cbn [bind].
  destruct v as [| | | | | |r]; try done. cbn in Hv.
  destruct (h !! r) as [[l| | |]|]; try done. by rewrite Hv.
Qed.

Lemma sharing_inv_step rec self output (h : Store.heap) k entry hc attr hc' :
  (forall h v h' r, rec h v = Ok (h', r) -> h ⊆ h') ->
  h !! output = None ->
  attr <> k ->
  sharing_inv h output k entry hc ->
  Store.to_dict_step rec self output hc attr = Ok hc' ->
  sharing_inv h output k entry hc'.
Proof.
  intros Hrec Hout Hne (Hsub & entries & Hentries & Hk) Hstep.
  apply to_dict_step_shape in Hstep as (hx & v & Hx & ->); [|done].
  split.
  - apply store_item_subseteq; [by etrans|done].
  - unfold Store.store_item. rewrite (lookup_weaken _ _ _ _ Hentries Hx).
    eexists. split; [apply lookup_insert_eq|].
    intros w Hw. rewrite dict_get_set_ne by done. by apply Hk.
Qed.

Lemma to_dict_loop_shares rec self output (h : Store.heap) cls attrs k v :
  (forall h v h' r, rec h v = Ok (h', r) -> h ⊆ h') ->
  h !! output = None ->
  h !! self = Some (Store.ModelO cls attrs) ->
  dict_get k attrs = Some v ->
  shared h v = true ->
  forall todo hc h',
    NoDup todo ->
    sharing_inv h output k None hc ->
    k ∈ todo \/ sharing_inv h output k (Some v) hc ->
    foldM (Store.to_dict_step rec self output) todo hc = Ok h' ->
    sharing_inv h output k (Some v) h'.
Proof.
  intros Hrec Hout Hself Hk Hv.
  induction todo as [|a todo IH]; intros hc h' Hnd Hinv Hcase Hloop.
  - injection Hloop as <-. destruct Hcase as [Hin|?]; [by inversion Hin|done].
  - rewrite foldM_cons in Hloop. apply bind_Ok in Hloop as (hc1 & Hstep & Hloop).
    apply NoDup_cons in Hnd as [Ha Hnd].
    destruct (decide (a = k)) as [->|Hne].
    + destruct Hinv as (Hsub & entries & Hentries & _).
      rewrite (to_dict_step_shared rec self output hc cls attrs k v) in Hstep;
        [|by eapply lookup_weaken|done|by eapply shared_mono].
      injection Hstep as <-.
      assert (sharing_inv h output k (Some v)
                (Store.store_item hc output k v)) as Hinv'.
      { split; [by apply store_item_subseteq|].
        unfold Store.store_item. rewrite Hentries.
        eexists. split; [apply lookup_insert_eq|].
        intros w [= <-]. apply dict_get_set_eq. }
      apply (IH (Store.store_item hc output k v) h' Hnd); [|by right|done].
      destruct Hinv' as (? & es & ? & _). split; [done|]. by exists es.
    + apply (IH hc1 h' Hnd); [by eapply sharing_inv_step| |done].
      destruct Hcase as [Hin|Hinv'].
      * left. apply elem_of_cons in Hin as [?|?]; [congruence|done].
      * right. by eapply sharing_inv_step.
Qed.

(** X17.  A [dict], or a list that passes through, is not copied by
    [to_dict]: the entry of the dictionary returned is a reference to the
    very object the attribute refers to, so a later change of that object
    shows in both. *)
Theorem to_dict_shares_what_passes_through fuel h self cls attrs k r h' out :
  h !! self = Some (Store.ModelO cls attrs) ->
  NoDup (map fst attrs) ->
  dict_get k attrs = Some (Store.RefV r) ->
  is_data_attr k = true ->
  shared h (Store.RefV r) = true ->
  Store.to_dict fuel h (Store.RefV self) = Ok (h', out) ->
  exists output entries,
    out = Store.RefV output /\
    h' !! output = Some (Store.DictO entries) /\
    dict_get k entries = Some (Store.RefV r) /\
    h' !! r = h !! r.
Proof.
  intros Hself Hnd Hk Hdata Hshared H.
  destruct fuel as [|fuel]; [done|]. rewrite to_dict_S, Hself in H.
  destruct (Store.alloc h (Store.DictO [])) as [h0 output] eqn:Halloc.
  apply bind_Ok in H as (h1 & Hloop & [= <- <-]).
  pose proof (alloc_spec _ _ _ _ Halloc) as [Hout ->].
  assert (sharing_inv h output k None (<[output := Store.DictO []]> h)) as H0.
  { split; [by apply insert_subseteq|].
    exists []. split; [apply lookup_insert_eq|done]. }
  assert (k ∈ _get_attrs attrs) as Hin.
  { unfold _get_attrs. apply list_elem_of_filter. split; [done|].
    by apply dict_get_Some_keys in Hk. }
  assert (NoDup (_get_attrs attrs)) as Hnd'.
  { unfold _get_attrs. by apply NoDup_filter. }
  destruct (to_dict_loop_shares (Store.to_dict fuel) self output h cls attrs k
              (Store.RefV r) (to_dict_subseteq fuel) Hout Hself Hk Hshared
              (_get_attrs attrs) _ h1 Hnd' H0 (or_introl Hin) Hloop)
    as (Hsub & entries & Hentries & Hentry).
  exists output, entries. split; [done|]. split; [done|].
  split; [by apply Hentry|].
  cbn in Hshared. destruct (h !! r) as [o|] eqn:Hr; [|done].
  by eapply lookup_weaken.
Qed.

Lemma to_dict_shares_what_passes_through_witness :
  exists h' out output entries,
    Store.to_dict 3 Store.example_heap (Store.RefV 1%positive) = Ok (h', out) /\
    out = Store.RefV output /\
    h' !! output = Some (Store.DictO entries) /\
    dict_get "tags" entries = Some (Store.RefV 4%positive) /\
    h' !! 4%positive = Store.example_heap !! 4%positive.
Proof.
  destruct (Store.to_dict 3 Store.example_heap (Store.RefV 1%positive))
    as [[h' out]|e] eqn:E; [|vm_compute in E; discriminate E].
  exists h', out.
  destruct (to_dict_shares_what_passes_through 3 Store.example_heap
              1%positive "Outer"
              [("inner", Store.RefV 2%positive);
               ("samples", Store.RefV 3%positive);
               ("tags", Store.RefV 4%positive); ("opt", Store.NoneV);
               ("x", Store.IntV 3)] "tags" 4%positive h' out
              eq_refl ltac:(compute_done) eq_refl eq_refl eq_refl E)
    as (output & entries & H).
  exists output, entries. split; [reflexivity | exact H].
Defined.

Lemma foldM_elem_Ok {A B : Type} (f : B -> A -> result B) (I : B -> Prop) x l :
  (forall s y s', I s -> f s y = Ok s' -> I s') ->
  x ∈ l ->
  forall s s', I s -> foldM f l s = Ok s' ->
               exists s1 s2, I s1 /\ f s1 x = Ok s2.
Proof.
  intros Hf. induction l as [|y l IH]; intros Hin s s' Hs H; [by inversion Hin|].
  rewrite foldM_cons in H. apply bind_Ok in H as (s1 & Hstep & Hloop).
  apply elem_of_cons in Hin as [->|Hin]; [by exists s, s1|].
  apply (IH Hin s1 s'); [by eapply Hf | done].
Qed.

(** X18.  An instance that holds itself in a data attribute has no
    encoding: whatever the recursion limit, [to_dict] does not return;
    when that attribute is the first one looked at, the call raises
    [RecursionError]. *)
Theorem to_dict_on_a_cycle fuel h self cls attrs k :
  h !! self = Some (Store.ModelO cls attrs) ->
  dict_get k attrs = Some (Store.RefV self) ->
  is_data_attr k = true ->
  (forall r, Store.to_dict fuel h (Store.RefV self) <> Ok r) /\
  (forall rest, attrs = (k, Store.RefV self) :: rest ->
     Store.to_dict fuel h (Store.RefV self) = Raise RecursionError).
Proof.
  revert h. induction fuel as [|fuel IH]; intros h Hself Hk Hdata; [done|].
  rewrite to_dict_S, Hself.
  destruct (Store.alloc h (Store.DictO [])) as [h0 output] eqn:Halloc.
  pose proof (alloc_spec _ _ _ _ Halloc) as [Hout ->].
  assert (forall hc, h ⊆ hc ->
            Store.to_dict_step (Store.to_dict fuel) self output hc k
            = let* encoded := Store.to_dict fuel hc (Store.RefV self) in
              Ok (Store.store_item (fst encoded) output k (snd encoded)))
    as Hstep.
  { intros hc Hsub. unfold Store.to_dict_step, Store.load_attr.
    rewrite (lookup_weaken _ _ _ _ Hself Hsub), (getattr_Ok _ _ _ _ Hk).
    cbn [bind]. by rewrite (lookup_weaken _ _ _ _ Hself Hsub). }
  split.
  - intros r H. apply bind_Ok in H as (h1 & Hloop & _).
    assert (k ∈ _get_attrs attrs) as Hin.
    { unfold _get_attrs. apply list_elem_of_filter. split; [done|].
      by apply dict_get_Some_keys in Hk. }
    destruct (foldM_elem_Ok _ (fun hc => h ⊆ hc) k _
                (fun hc attr hc' Hsub Hs =>
                   to_dict_step_subseteq (Store.to_dict fuel) self output h hc
                     attr hc' (to_dict_subseteq fuel) Hsub Hout Hs)
                Hin _ _ (insert_subseteq _ _ _ Hout) Hloop)
      as (hc & hc' & Hsub & Hk').
    rewrite (Hstep hc Hsub) in Hk'.
    apply bind_Ok in Hk' as (encoded & Henc & _).
    by apply (proj1 (IH hc (lookup_weaken _ _ _ _ Hself Hsub) Hk Hdata) encoded).
  - intros rest ->. rewrite get_attrs_cons, Hdata, foldM_cons.
    rewrite (Hstep _ (insert_subseteq _ _ _ Hout)).
    rewrite (proj2 (IH (<[output := Store.DictO []]> h)
                      (lookup_weaken _ _ _ _ Hself (insert_subseteq _ _ _ Hout))
                      Hk Hdata) rest eq_refl).
    done.
Qed.

Lemma to_dict_on_a_cycle_witness :
  Store.to_dict 1000 cyclic_heap (Store.RefV 1%positive)
  = Raise RecursionError.
Proof.
  exact (proj2 (to_dict_on_a_cycle 1000 cyclic_heap 1%positive "Node"
                  [("next", Store.RefV 1%positive); ("label", Store.StrV "a")]
                  "next" eq_refl eq_refl eq_refl)
               [("label", Store.StrV "a")] eq_refl).
Defined.


(** ** [items] *)

Lemma items_cons {V : Type} k (v : V) (ns : list (string * V)) :
  items ((k, v) :: ns)
  = if is_data_attr k then (k, v) :: items ns else items ns.
Proof.
  unfold items. rewrite filter_cons. cbn [fst].
  destruct (is_data_attr k); [by rewrite decide_True|by rewrite decide_False].
Qed.

(** ** An instance of primitives *)

Lemma to_dict_loop_primitives rec attrs :
  forall acc,
    NoDup (map fst acc ++ map fst attrs) ->
    Forall (fun kv => PRIMITIVES (snd kv) = true) (items attrs) ->
    foldM (to_dict_step rec) attrs acc = Ok (acc ++ items attrs).
Proof.
  induction attrs as [|[k v] attrs IH]; intros acc Hnd Hp.
  - by rewrite app_nil_r.
  - rewrite foldM_cons, items_cons. rewrite items_cons in Hp.
    cbn [map fst] in Hnd. apply NoDup_app_cons_r in Hnd as (Hk & Hnd1 & Hnd2).
    unfold to_dict_step at 1. destruct (is_data_attr k).
    + apply Forall_cons in Hp as [Hv Hp]. cbn [snd] in Hv.
      assert (to_dict_value rec v = Ok v) as -> by by destruct v.
      cbn [bind]. rewrite dict_set_fresh by done.
      rewrite IH; [by rewrite <- app_assoc| |done].
      by rewrite map_app.
    + cbn [bind]. by apply IH.
Qed.

(** X20.  An instance with distinct attribute names whose data attributes
    all hold primitives encodes to the [dict] of its [items]: the same
    names, in the same order, with the same values. *)
Theorem to_dict_of_primitives cls attrs :
  NoDup (map fst attrs) ->
  Forall (fun kv => PRIMITIVES (snd kv) = true) (items attrs) ->
  to_dict (VModel cls attrs) = Ok (VDict (items attrs)).
Proof.
  intros Hnd Hp. rewrite to_dict_VModel.
  by rewrite (to_dict_loop_primitives to_dict attrs [] Hnd Hp).
Qed.

Lemma to_dict_of_primitives_witness :
  to_dict (VModel "Inner" private_attrs) = Ok (VDict [("a", VInt 1)]).
Proof.
  apply (to_dict_of_primitives "Inner" private_attrs); [compute_done|].
  repeat constructor.
Defined.

(** ** What [to_dict] raises on the heap *)

Lemma mapM_heap_fails rec ts :
  Forall (fun t => computes rec t /\ fails rec t) ts ->
  forall e items hb h,
    mapM to_dict ts = Raise e -> hb ⊆ h ->
    all2 (Store.unfolds hb) ts items ->
    Store.mapM_heap rec items h = Raise e.
Proof.
  induction 1 as [|t ts [Hc Hf] _ IH]; intros e [|v items] hb h Hraise Hsub Hall;
    simpl in Hall; try done.
  destruct Hall as [Hv Hall]. cbn [mapM] in Hraise. cbn [Store.mapM_heap].
  destruct (to_dict t) as [y|e1] eqn:Hy; cbn [bind] in Hraise.
  - destruct (Hc y hb h v Hy Hsub Hv)
      as (h1 & r & hb1 & Hcall & Hh1 & Hhb1 & Hsub1 & _ & _).
    rewrite Hcall. cbn [bind fst].
    destruct (mapM to_dict ts) as [ys|e2] eqn:Hys; [done|].
    cbn [bind] in Hraise. injection Hraise as <-.
    rewrite (IH e2 items hb1 h1 eq_refl Hsub1); [done|].
    eapply all2_impl; [|exact Hall]. apply Forall_forall.
    intros x _ w. by apply unfolds_mono.
  - injection Hraise as <-. by rewrite (Hf e1 hb h v Hy Hsub Hv).
Qed.

Lemma to_dict_step_fails rec (h hb : Store.heap) self cls attrs output
    acc hc hbc k x xv e :
  h !! self = Some (Store.ModelO cls attrs) ->
  dict_get k attrs = Some xv ->
  Store.unfolds hb x xv ->
  fails rec x ->
  (forall l, x = VList l -> Forall (fun t => computes rec t /\ fails rec t) l) ->
  loop_inv h hb output acc hc hbc ->
  to_dict_value to_dict x = Raise e ->
  Store.to_dict_step rec self output hc k = Raise e.
Proof.
  intros Hself Hget Hx Hrec Hrecl Hinv Hy.
  destruct (loop_inv_part _ _ _ _ _ _ Hinv) as (Hh & Hhb & Hsub).
  assert (Store.unfolds hbc x xv) as Hxc by by eapply unfolds_mono.
  unfold Store.to_dict_step, Store.load_attr.
  rewrite (lookup_weaken _ _ _ _ Hself Hh), (getattr_Ok _ _ _ _ Hget).
  cbn [bind].
  destruct x as [| | | | |d|ecls n|ts|c a|tag]; simpl in Hxc; try done.
  - destruct Hxc as (r & items & -> & Hr & Hall).
    rewrite (lookup_weaken _ _ _ _ Hr Hsub).
    rewrite (passes_through_unfolds hbc hc ts items Hsub Hall).
    unfold to_dict_value in Hy.
    destruct (passes_through ts); [done|].
    destruct (mapM to_dict ts) as [ys|e1] eqn:Hmap; [done|].
    cbn [bind] in Hy. injection Hy as <-.
    by rewrite (mapM_heap_fails rec ts (Hrecl ts eq_refl) e1 items hbc hc
                  Hmap Hsub Hall).
  - pose proof Hxc as (r & es & -> & Hr & _).
    rewrite (lookup_weaken _ _ _ _ Hr Hsub).
    by rewrite (Hrec e hbc hc (Store.RefV r) Hy Hsub Hxc).
  - pose proof Hxc as (r & -> & Hr).
    rewrite (lookup_weaken _ _ _ _ Hr Hsub).
    by rewrite (Hrec e hbc hc (Store.RefV r) Hy Hsub Hxc).
Qed.

Lemma to_dict_loop_fails rec (h hb : Store.heap) self cls attrs output e :
  hb ⊆ h -> h !! output = None ->
  h !! self = Some (Store.ModelO cls attrs) ->
  forall todo todo_h acc hc hbc,
    all2 (fun t e => fst t = fst e /\ Store.unfolds hb (snd t) (snd e))
         todo todo_h ->
    (forall k xv, (k, xv) ∈ todo_h -> dict_get k attrs = Some xv) ->
    Forall (fun kv =>
              (computes rec (snd kv) /\ fails rec (snd kv)) /\
              forall l, snd kv = VList l ->
                        Forall (fun t => computes rec t /\ fails rec t) l)
           todo ->
    loop_inv h hb output acc hc hbc ->
    foldM (to_dict_step to_dict) todo acc = Raise e ->
    foldM (Store.to_dict_step rec self output) (_get_attrs todo_h) hc
    = Raise e.
Proof.
  intros Hb Hout Hself.
  induction todo as [|[k x] todo IH];
    intros [|[k' xv] todo_h] acc hc hbc Hall Hlook Hrec Hinv Hloop;
    simpl in Hall; try done.
  destruct Hall as [[Hk Hx] Hall]. cbn [fst snd] in Hk, Hx. subst k'.
  apply Forall_cons in Hrec as [[[Hcx Hfx] Hrl] Hrec]. cbn [snd] in Hcx, Hfx, Hrl.
  rewrite foldM_cons in Hloop. unfold to_dict_step at 1 in Hloop.
  rewrite get_attrs_cons.
  assert (forall k0 xv0, (k0, xv0) ∈ todo_h -> dict_get k0 attrs = Some xv0)
    as Hlook'.
  { intros k0 xv0 Hin. apply Hlook. by apply list_elem_of_further. }
  destruct (is_data_attr k).
  - rewrite foldM_cons.
    destruct (to_dict_value to_dict x) as [y|e1] eqn:Hy; cbn [bind] in Hloop.
    + destruct (to_dict_step_computes rec h hb self cls attrs output acc hc hbc
                  k x xv y Hb Hout Hself
                  (Hlook k xv (list_elem_of_here _ _)) Hx Hcx
                  (fun l El => Forall_impl _ _ _ (Hrl l El) (fun t H => proj1 H))
                  Hinv Hy)
        as (hc1 & hbc1 & Hstep1 & Hinv1).
      rewrite Hstep1. cbn [bind].
      by apply (IH todo_h (dict_set k y acc) hc1 hbc1).
    + injection Hloop as <-.
      by rewrite (to_dict_step_fails rec h hb self cls attrs output acc hc hbc
                    k x xv e1 Hself (Hlook k xv (list_elem_of_here _ _)) Hx
                    Hfx Hrl Hinv Hy).
  - cbn [bind] in Hloop. by apply (IH todo_h acc hc hbc).
Qed.

Lemma to_dict_model_fails cls attrs fuel :
  Forall (fun kv =>
            (computes (Store.to_dict fuel) (snd kv) /\
             fails (Store.to_dict fuel) (snd kv)) /\
            forall l, snd kv = VList l ->
                      Forall (fun t => computes (Store.to_dict fuel) t /\
                                       fails (Store.to_dict fuel) t) l) attrs ->
  fails (Store.to_dict (S fuel)) (VModel cls attrs).
Proof.
  intros Hrec e hb h v Hto Hb Hv. simpl in Hv.
  destruct Hv as (self & attrs_h & -> & Hself & Hnd & Hall).
  rewrite to_dict_VModel in Hto.
  destruct (foldM (to_dict_step to_dict) attrs []) as [out|e1] eqn:Hloop;
    [done|]. cbn [bind] in Hto. injection Hto as <-.
  rewrite to_dict_S. rewrite (lookup_weaken _ _ _ _ Hself Hb).
  destruct (Store.alloc h (Store.DictO [])) as [h0 output] eqn:Halloc.
  apply alloc_spec in Halloc as [Hout ->].
  rewrite (to_dict_loop_fails (Store.to_dict fuel) h hb self cls attrs_h
             output e1 Hb Hout (lookup_weaken _ _ _ _ Hself Hb)
             attrs attrs_h [] (<[output := Store.DictO []]> h) hb); try done.
  - intros k xv Hin. by apply dict_get_elem.
  - split; [by apply insert_subseteq|]. split; [done|].
    split; [etrans; [exact Hb | by apply insert_subseteq]|].
    split; [done|]. exists []. split; [by rewrite lookup_insert_eq | done].
Qed.

Lemma to_dict_leaf_fails fuel t :
  is_model t = false -> fails (Store.to_dict (S fuel)) t.
Proof.
  intros Ht e hb h v Hto Hb Hv. rewrite to_dict_S.
  destruct t as [| | | | |d|ecls n|ts|c a|tag]; try discriminate Ht;
    cbn in Hto; injection Hto as <-; simpl in Hv.
  1-5: by subst v.
  - destruct Hv as (l & es & -> & Hl & _).
    by rewrite (lookup_weaken _ _ _ _ Hl Hb).
  - by subst v.
  - destruct Hv as (l & es & -> & Hl & _).
    by rewrite (lookup_weaken _ _ _ _ Hl Hb).
  - destruct Hv as (l & -> & Hl).
    by rewrite (lookup_weaken _ _ _ _ Hl Hb).
Qed.

Lemma to_dict_fails_nested t :
  (forall fuel, height t < fuel -> fails (Store.to_dict fuel) t) /\
  (forall l, t = VList l ->
     forall fuel, height t < fuel -> Forall (fails (Store.to_dict fuel)) l).
Proof.
  induction t as [| | | | |entries _|ecls n|l IH|cls attrs IH|]
    using value_nested_ind;
    try (split; [|by intros ? [=]];
         intros [|fuel] Hfuel; [lia|]; by apply to_dict_leaf_fails).
  - split.
    + intros [|fuel] Hfuel; [lia|]. by apply to_dict_leaf_fails.
    + intros l' [= <-] fuel Hfuel. apply Forall_forall. intros x Hin.
      rewrite Forall_forall in IH. apply (proj1 (IH x Hin)).
      pose proof (list_max_elem height l x Hin). simpl in Hfuel. lia.
  - split; [|by intros ? [=]].
    intros [|fuel] Hfuel; [lia|].
    apply to_dict_model_fails. apply Forall_forall. intros kv Hin.
    rewrite Forall_forall in IH. destruct (IH kv Hin) as [Hkv Hl].
    assert (height (snd kv) < fuel) as Hlt.
    { pose proof (list_max_elem (fun kv => height (snd kv)) attrs kv Hin).
      simpl in Hfuel. lia. }
    split.
    + split; [|by apply Hkv].
      apply (proj1 (to_dict_computes_nested (snd kv))). lia.
    + intros l El. apply Forall_forall. intros x Hx.
      pose proof (proj2 (to_dict_computes_nested (snd kv)) l El fuel
                    ltac:(lia)) as Hc.
      pose proof (Hl l El fuel Hlt) as Hf.
      rewrite Forall_forall in Hc, Hf. split; [by apply Hc | by apply Hf].
Qed.

(** X3.  Take an instance, on the heap, that unfolds to a tree, whose
    models hide no method of the base class, and whose nesting is within
    the recursion limit.  Then [to_dict] returns exactly when every data
    attribute met can be encoded (an enumeration member, a primitive, a
    list that passes through or holds such instances only, or such an
    instance), and what it returns unfolds to the encoding; in every other
    case it raises [AttributeError]. *)
Theorem to_dict_returns_iff_encodable t h self fuel :
  Store.unfolds h t self ->
  methods_intact t = true ->
  height t < fuel ->
  (encodable t = true ->
   exists t' h' r,
     to_dict t = Ok t' /\
     Store.to_dict fuel h self = Ok (h', r) /\ Store.unfolds h' t' r) /\
  (encodable t = false ->
   Store.to_dict fuel h self = Raise AttributeError).
Proof.
  intros Hself _ Hfuel.
  pose proof (proj1 (to_dict_returns_iff_nested t)) as H.
  unfold returns_iff in H. split; intros He; rewrite He in H.
  - destruct H as [t' Ht']. exists t'.
    destruct (proj1 (to_dict_computes_nested t) fuel ltac:(lia) t' h h self
                Ht' (reflexivity h) Hself)
      as (h' & r & hb' & Hcall & _ & _ & Hsub & _ & Hr).
    exists h', r. split; [done|]. split; [done|]. by eapply unfolds_mono.
  - exact (proj1 (to_dict_fails_nested t) fuel Hfuel AttributeError h h self
             H (reflexivity h) Hself).
Qed.

Lemma to_dict_returns_iff_encodable_witness :
  Store.to_dict 3 mixed_heap (Store.RefV 1%positive) = Raise AttributeError.
Proof.
  refine (proj2 (to_dict_returns_iff_encodable
                   (VModel "Outer"
                      [("x", VInt 3);
                       ("samples", VList [VModel "Inner" [("a", VInt 1)];
                                          VInt 7])])
                   mixed_heap (Store.RefV 1%positive) 3 _ eq_refl _) eq_refl).
  - exists 1%positive,
      [("x", Store.IntV 3); ("samples", Store.RefV 2%positive)].
    split; [reflexivity|]. split; [reflexivity|]. split; [compute_done|].
    cbn. split; [done|]. split; [|done]. split; [done|].
    exists 2%positive, [Store.RefV 3%positive; Store.IntV 7].
    split; [reflexivity|]. split; [reflexivity|]. cbn.
    split; [|done].
    exists 3%positive, [("a", Store.IntV 1)].
    split; [reflexivity|]. split; [reflexivity|]. split; [compute_done|].
    cbn. done.
  - cbn. lia.
Defined.
